(** * A shallow embedding of the AES-128 core of the cryptopals crate

    Source: [src/src/aes.rs] (modules [gf], [state], [key] and the cipher
    driver) together with the stand-alone copy of the key schedule in
    [src/src/aes/key.rs].

    Modelling conventions.
    - A [u8] is a [Z] in [0, 256); the wrap-around of [u8 << 1] is written
      out with [Z.land _ 255].
    - A [[u8; 16]] (State, RoundKey, Key128, a block) is a [list Z]; a
      [[u8; 4]] (Column, key word) is the record [u8x4].
    - Runtime panics (failed [assert!], explicit [panic!], [unwrap] or
      [expect] on a failing conversion, an out-of-range runtime index) are
      the [Panic] case of the [result] type below; indexing that the Rust
      types make statically in range (a [u8] into a 256-entry table, a
      constant index into a [[u8; 16]]) is a total [nth]. *)

From Stdlib Require Import String ZArith List Bool Lia.
From AAC_tactics Require Import AAC.
Import ListNotations.
Open Scope Z_scope.

(** ** Panics *)

Inductive result (A : Type) : Type :=
| Ok (a : A)
| Panic (msg : string).
Arguments Ok {A} a.
Arguments Panic {A} msg.

Definition bind {A B} (m : result A) (k : A -> result B) : result B :=
  match m with
  | Ok a => k a
  | Panic msg => Panic msg
  end.

Notation "x <- m ;; k" := (bind m (fun x => k))
  (at level 61, m at next level, right associativity).

(** [Option::unwrap] *)
Definition unwrap {A} (o : option A) : result A :=
  match o with
  | Some a => Ok a
  | None => Panic "called `Option::unwrap()` on a `None` value"
  end.

(** [array[index]] with a runtime index: panics when out of bounds. *)
Definition index {A} (l : list A) (i : nat) : result A :=
  match nth_error l i with
  | Some a => Ok a
  | None => Panic "index out of bounds"
  end.

(** ** Bytes and 4-byte words *)

Definition u8 := Z.

Definition is_byte (x : Z) : bool := (0 <=? x) && (x <? 256).

Definition is_block (l : list Z) : bool :=
  (Nat.eqb (length l) 16) && forallb is_byte l.

(** A [[u8; 4]]. *)
Record u8x4 := W { w0 : u8; w1 : u8; w2 : u8; w3 : u8 }.

Definition word_to_list (w : u8x4) : list Z := [w0 w; w1 w; w2 w; w3 w].

(** [<[u8; 4]>::try_from(&[u8])]: succeeds exactly on slices of length 4. *)
Definition try_into_word (s : list Z) : option u8x4 :=
  match s with
  | [a; b; c; d] => Some (W a b c d)
  | _ => None
  end.

(** [&array[lo..hi]] / [array.get(lo..hi)]: [None] when the range is out of
    bounds. *)
Definition get_range (l : list Z) (lo hi : nat) : option (list Z) :=
  if (lo <=? hi)%nat && (hi <=? length l)%nat
  then Some (firstn (hi - lo) (skipn lo l))
  else None.

(** ** Module [gf]: the Rijndael field GF(2^8) *)

Module gf.

(** [gf::add]: [a ^ b]. *)
Definition add (a b : u8) : u8 := Z.lxor a b.

(** [gf::add_word] *)
Definition add_word (a b : u8x4) : u8x4 :=
  W (add (w0 a) (w0 b)) (add (w1 a) (w1 b))
    (add (w2 a) (w2 b)) (add (w3 a) (w3 b)).

(** The body of the [while a != 0 && b != 0] loop of [gf::mult]. Each
    iteration shifts the [u8] [b] right by one, so after 8 iterations
    [b = 0] and the loop has exited: 8 is enough fuel for every [u8]. *)
Fixpoint mult_loop (fuel : nat) (a b result : u8) : u8 :=
  match fuel with
  | O => result
  | S fuel' =>
      if negb (a =? 0) && negb (b =? 0) then
        let result := if Z.land b 1 =? 1 then add result a else result in
        let b := Z.shiftr b 1 in
        let a := if negb (Z.land a 0x80 =? 0)
                 then add (Z.land (Z.shiftl a 1) 255) 0x1b
                 else Z.land (Z.shiftl a 1) 255 in
        mult_loop fuel' a b result
      else result
  end.

(** [gf::mult] *)
Definition mult (a b : u8) : u8 := mult_loop 8 a b 0.

End gf.

(** ** The S-box tables [SBOX_ENCRYPT] and [SBOX_DECRYPT] *)

Definition SBOX_ENCRYPT : list u8 := [
   0x63; 0x7c; 0x77; 0x7b; 0xf2; 0x6b; 0x6f; 0xc5; 0x30; 0x01; 0x67; 0x2b; 0xfe; 0xd7; 0xab; 0x76;
   0xca; 0x82; 0xc9; 0x7d; 0xfa; 0x59; 0x47; 0xf0; 0xad; 0xd4; 0xa2; 0xaf; 0x9c; 0xa4; 0x72; 0xc0;
   0xb7; 0xfd; 0x93; 0x26; 0x36; 0x3f; 0xf7; 0xcc; 0x34; 0xa5; 0xe5; 0xf1; 0x71; 0xd8; 0x31; 0x15;
   0x04; 0xc7; 0x23; 0xc3; 0x18; 0x96; 0x05; 0x9a; 0x07; 0x12; 0x80; 0xe2; 0xeb; 0x27; 0xb2; 0x75;
   0x09; 0x83; 0x2c; 0x1a; 0x1b; 0x6e; 0x5a; 0xa0; 0x52; 0x3b; 0xd6; 0xb3; 0x29; 0xe3; 0x2f; 0x84;
   0x53; 0xd1; 0x00; 0xed; 0x20; 0xfc; 0xb1; 0x5b; 0x6a; 0xcb; 0xbe; 0x39; 0x4a; 0x4c; 0x58; 0xcf;
   0xd0; 0xef; 0xaa; 0xfb; 0x43; 0x4d; 0x33; 0x85; 0x45; 0xf9; 0x02; 0x7f; 0x50; 0x3c; 0x9f; 0xa8;
   0x51; 0xa3; 0x40; 0x8f; 0x92; 0x9d; 0x38; 0xf5; 0xbc; 0xb6; 0xda; 0x21; 0x10; 0xff; 0xf3; 0xd2;
   0xcd; 0x0c; 0x13; 0xec; 0x5f; 0x97; 0x44; 0x17; 0xc4; 0xa7; 0x7e; 0x3d; 0x64; 0x5d; 0x19; 0x73;
   0x60; 0x81; 0x4f; 0xdc; 0x22; 0x2a; 0x90; 0x88; 0x46; 0xee; 0xb8; 0x14; 0xde; 0x5e; 0x0b; 0xdb;
   0xe0; 0x32; 0x3a; 0x0a; 0x49; 0x06; 0x24; 0x5c; 0xc2; 0xd3; 0xac; 0x62; 0x91; 0x95; 0xe4; 0x79;
   0xe7; 0xc8; 0x37; 0x6d; 0x8d; 0xd5; 0x4e; 0xa9; 0x6c; 0x56; 0xf4; 0xea; 0x65; 0x7a; 0xae; 0x08;
   0xba; 0x78; 0x25; 0x2e; 0x1c; 0xa6; 0xb4; 0xc6; 0xe8; 0xdd; 0x74; 0x1f; 0x4b; 0xbd; 0x8b; 0x8a;
   0x70; 0x3e; 0xb5; 0x66; 0x48; 0x03; 0xf6; 0x0e; 0x61; 0x35; 0x57; 0xb9; 0x86; 0xc1; 0x1d; 0x9e;
   0xe1; 0xf8; 0x98; 0x11; 0x69; 0xd9; 0x8e; 0x94; 0x9b; 0x1e; 0x87; 0xe9; 0xce; 0x55; 0x28; 0xdf;
   0x8c; 0xa1; 0x89; 0x0d; 0xbf; 0xe6; 0x42; 0x68; 0x41; 0x99; 0x2d; 0x0f; 0xb0; 0x54; 0xbb; 0x16 ].

Definition SBOX_DECRYPT : list u8 := [
   0x52; 0x09; 0x6a; 0xd5; 0x30; 0x36; 0xa5; 0x38; 0xbf; 0x40; 0xa3; 0x9e; 0x81; 0xf3; 0xd7; 0xfb;
   0x7c; 0xe3; 0x39; 0x82; 0x9b; 0x2f; 0xff; 0x87; 0x34; 0x8e; 0x43; 0x44; 0xc4; 0xde; 0xe9; 0xcb;
   0x54; 0x7b; 0x94; 0x32; 0xa6; 0xc2; 0x23; 0x3d; 0xee; 0x4c; 0x95; 0x0b; 0x42; 0xfa; 0xc3; 0x4e;
   0x08; 0x2e; 0xa1; 0x66; 0x28; 0xd9; 0x24; 0xb2; 0x76; 0x5b; 0xa2; 0x49; 0x6d; 0x8b; 0xd1; 0x25;
   0x72; 0xf8; 0xf6; 0x64; 0x86; 0x68; 0x98; 0x16; 0xd4; 0xa4; 0x5c; 0xcc; 0x5d; 0x65; 0xb6; 0x92;
   0x6c; 0x70; 0x48; 0x50; 0xfd; 0xed; 0xb9; 0xda; 0x5e; 0x15; 0x46; 0x57; 0xa7; 0x8d; 0x9d; 0x84;
   0x90; 0xd8; 0xab; 0x00; 0x8c; 0xbc; 0xd3; 0x0a; 0xf7; 0xe4; 0x58; 0x05; 0xb8; 0xb3; 0x45; 0x06;
   0xd0; 0x2c; 0x1e; 0x8f; 0xca; 0x3f; 0x0f; 0x02; 0xc1; 0xaf; 0xbd; 0x03; 0x01; 0x13; 0x8a; 0x6b;
   0x3a; 0x91; 0x11; 0x41; 0x4f; 0x67; 0xdc; 0xea; 0x97; 0xf2; 0xcf; 0xce; 0xf0; 0xb4; 0xe6; 0x73;
   0x96; 0xac; 0x74; 0x22; 0xe7; 0xad; 0x35; 0x85; 0xe2; 0xf9; 0x37; 0xe8; 0x1c; 0x75; 0xdf; 0x6e;
   0x47; 0xf1; 0x1a; 0x71; 0x1d; 0x29; 0xc5; 0x89; 0x6f; 0xb7; 0x62; 0x0e; 0xaa; 0x18; 0xbe; 0x1b;
   0xfc; 0x56; 0x3e; 0x4b; 0xc6; 0xd2; 0x79; 0x20; 0x9a; 0xdb; 0xc0; 0xfe; 0x78; 0xcd; 0x5a; 0xf4;
   0x1f; 0xdd; 0xa8; 0x33; 0x88; 0x07; 0xc7; 0x31; 0xb1; 0x12; 0x10; 0x59; 0x27; 0x80; 0xec; 0x5f;
   0x60; 0x51; 0x7f; 0xa9; 0x19; 0xb5; 0x4a; 0x0d; 0x2d; 0xe5; 0x7a; 0x9f; 0x93; 0xc9; 0x9c; 0xef;
   0xa0; 0xe0; 0x3b; 0x4d; 0xae; 0x2a; 0xf5; 0xb0; 0xc8; 0xeb; 0xbb; 0x3c; 0x83; 0x53; 0x99; 0x61;
   0x17; 0x2b; 0x04; 0x7e; 0xba; 0x77; 0xd6; 0x26; 0xe1; 0x69; 0x14; 0x63; 0x55; 0x21; 0x0c; 0x7d ].

(** [sbox[x as usize]]: a [u8] index into a 256-entry table. *)
Definition sbox_lookup (sbox : list u8) (x : u8) : u8 := nth (Z.to_nat x) sbox 0.

(** ** Loops and in-place updates *)

(** A [for x in l { ... }] loop whose body may panic, threading the
    mutable locals [s]. *)
Fixpoint for_each {A S} (l : list A) (body : A -> S -> result S) (s : S)
  : result S :=
  match l with
  | [] => Ok s
  | x :: l' => s' <- body x s ;; for_each l' body s'
  end.

(** [array[i] = v] at an index the types keep in range. *)
Fixpoint list_upd {A} (l : list A) (i : nat) (v : A) : list A :=
  match l, i with
  | [], _ => []
  | _ :: l', O => v :: l'
  | x :: l', S i' => x :: list_upd l' i' v
  end.

(** [array[i] = v] at a runtime index: panics when out of bounds. *)
Definition set_index {A} (l : list A) (i : nat) (v : A) : result (list A) :=
  if (i <? length l)%nat then Ok (list_upd l i v)
  else Panic "index out of bounds".

(** [array[i]] at a constant index the types keep in range. *)
Definition get (l : list u8) (i : nat) : u8 := nth i l 0.

(** ** Module [key] of [src/src/aes.rs] *)

Module key.

Definition Rcon := u8x4.

Definition ROUND_CONSTANTS : list Rcon :=
  [W 0x01 0 0 0; W 0x02 0 0 0; W 0x04 0 0 0; W 0x08 0 0 0; W 0x10 0 0 0;
   W 0x20 0 0 0; W 0x40 0 0 0; W 0x80 0 0 0; W 0x1b 0 0 0; W 0x36 0 0 0].

(** [rot_word]: [tmp = w[0]; w[0] = w[1]; w[1] = w[2]; w[2] = w[3];
    w[3] = tmp]. *)
Definition rot_word (word : u8x4) : u8x4 :=
  W (w1 word) (w2 word) (w3 word) (w0 word).

(** [sub_word]: [w[i] = SBOX_ENCRYPT[w[i] as usize]] for [i] in [0..4]. *)
Definition sub_word (word : u8x4) : u8x4 :=
  W (sbox_lookup SBOX_ENCRYPT (w0 word)) (sbox_lookup SBOX_ENCRYPT (w1 word))
    (sbox_lookup SBOX_ENCRYPT (w2 word)) (sbox_lookup SBOX_ENCRYPT (w3 word)).

Definition rcon (word : u8x4) (constant : Rcon) : u8x4 :=
  gf.add_word word constant.

(** [RoundKey([u8; 16])], [Key128([u8; 16])], [RoundKeys128([RoundKey; 11])] *)
Definition RoundKey := list u8.
Definition Key128 := list u8.
Definition RoundKeys128 := list RoundKey.

(** [RoundKey::column]: [assert!(index <= 3)], then
    [self.0.get(index*4 .. index*4+4).unwrap().try_into().unwrap()]. *)
Definition RoundKey_column (rk : RoundKey) (index : nat) : result u8x4 :=
  if (3 <? index)%nat then Panic "index needs to be in range 0..=3"
  else
    slice <- unwrap (get_range rk (index * 4) (index * 4 + 4)) ;;
    unwrap (try_into_word slice).

(** [Key128::column]: [assert!(index <= count, "index out of range")] with
    [count = 4] for 128-bit keys, then
    [self.0.get(index*4 .. index*4+4).unwrap().try_into().unwrap()]. *)
Definition Key128_column (k : Key128) (index : nat) : result u8x4 :=
  let count := 4%nat in
  if negb (index <=? count)%nat then Panic "index out of range"
  else
    slice <- unwrap (get_range k (index * 4) (index * 4 + 4)) ;;
    unwrap (try_into_word slice).

(** [RoundKey::set_column]: [assert!(index <= 3)], then
    [self.0[index*4 .. index*4+4].copy_from_slice(&col)]. *)
Definition RoundKey_set_column (rk : RoundKey) (index : nat) (col : u8x4)
  : result RoundKey :=
  if (3 <? index)%nat then Panic "index needs to be in range 0..=3"
  else
    match get_range rk (index * 4) (index * 4 + 4) with
    | Some _ => Ok (firstn (index * 4) rk ++ word_to_list col
                      ++ skipn (index * 4 + 4) rk)
    | None => Panic "range end index out of range for slice"
    end.

(** One iteration [i] of the loop [for i in 1..11] of [Key128::expand];
    the mutable locals are [(rounds, previous_round_key)]. *)
Definition expand_step (i : nat) (st : list RoundKey * RoundKey)
  : result (list RoundKey * RoundKey) :=
  let '(rounds, previous_round_key) := st in
  let new_round_key := repeat 0 16 in
  column <- RoundKey_column previous_round_key 3 ;;
  let column := rot_word column in
  let column := sub_word column in
  constant <- index ROUND_CONSTANTS (i - 1) ;;
  let column := rcon column constant in
  prev_rk <- index rounds (i - 1) ;;
  previous_column <- RoundKey_column prev_rk 0 ;;
  let column := gf.add_word column previous_column in
  new_round_key <- RoundKey_set_column new_round_key 0 column ;;
  column <- RoundKey_column new_round_key 0 ;;
  previous_column <- RoundKey_column previous_round_key 1 ;;
  let column := gf.add_word column previous_column in
  new_round_key <- RoundKey_set_column new_round_key 1 column ;;
  column <- RoundKey_column new_round_key 1 ;;
  previous_column <- RoundKey_column previous_round_key 2 ;;
  new_round_key <- RoundKey_set_column new_round_key 2
                     (gf.add_word column previous_column) ;;
  column <- RoundKey_column new_round_key 2 ;;
  previous_column <- RoundKey_column previous_round_key 3 ;;
  new_round_key <- RoundKey_set_column new_round_key 3
                     (gf.add_word column previous_column) ;;
  let previous_round_key := new_round_key in
  rounds <- set_index rounds i new_round_key ;;
  Ok (rounds, previous_round_key).

(** [Key128::expand] *)
Definition Key128_expand (k : Key128) : result RoundKeys128 :=
  let rounds := repeat (repeat 0 16) 11 in
  let rounds := list_upd rounds 0 k in
  let previous_round_key := k in
  st <- for_each (seq 1 10) expand_step (rounds, previous_round_key) ;;
  Ok (fst st).

End key.

(** ** [src/src/aes/key.rs]: the stand-alone copy of module [key]

    The file repeats the inline module [key] of [src/src/aes.rs] (only the
    indentation differs) and imports the same [gf] and [SBOX_ENCRYPT]
    ([use super::{gf, SBOX_ENCRYPT}]); it is embedded separately here so
    that the two schedules can be compared. *)

Module key_file.

Definition Rcon := u8x4.

Definition ROUND_CONSTANTS : list Rcon :=
  [W 0x01 0 0 0; W 0x02 0 0 0; W 0x04 0 0 0; W 0x08 0 0 0; W 0x10 0 0 0;
   W 0x20 0 0 0; W 0x40 0 0 0; W 0x80 0 0 0; W 0x1b 0 0 0; W 0x36 0 0 0].

(** [rot_word]: [tmp = w[0]; w[0] = w[1]; w[1] = w[2]; w[2] = w[3];
    w[3] = tmp]. *)
Definition rot_word (word : u8x4) : u8x4 :=
  W (w1 word) (w2 word) (w3 word) (w0 word).

(** [sub_word]: [w[i] = SBOX_ENCRYPT[w[i] as usize]] for [i] in [0..4]. *)
Definition sub_word (word : u8x4) : u8x4 :=
  W (sbox_lookup SBOX_ENCRYPT (w0 word)) (sbox_lookup SBOX_ENCRYPT (w1 word))
    (sbox_lookup SBOX_ENCRYPT (w2 word)) (sbox_lookup SBOX_ENCRYPT (w3 word)).

Definition rcon (word : u8x4) (constant : Rcon) : u8x4 :=
  gf.add_word word constant.

(** [RoundKey([u8; 16])], [Key128([u8; 16])], [RoundKeys128([RoundKey; 11])] *)
Definition RoundKey := list u8.
Definition Key128 := list u8.
Definition RoundKeys128 := list RoundKey.

(** [RoundKey::column]: [assert!(index <= 3)], then
    [self.0.get(index*4 .. index*4+4).unwrap().try_into().unwrap()]. *)
Definition RoundKey_column (rk : RoundKey) (index : nat) : result u8x4 :=
  if (3 <? index)%nat then Panic "index needs to be in range 0..=3"
  else
    slice <- unwrap (get_range rk (index * 4) (index * 4 + 4)) ;;
    unwrap (try_into_word slice).

(** [RoundKey::set_column]: [assert!(index <= 3)], then
    [self.0[index*4 .. index*4+4].copy_from_slice(&col)]. *)
Definition RoundKey_set_column (rk : RoundKey) (index : nat) (col : u8x4)
  : result RoundKey :=
  if (3 <? index)%nat then Panic "index needs to be in range 0..=3"
  else
    match get_range rk (index * 4) (index * 4 + 4) with
    | Some _ => Ok (firstn (index * 4) rk ++ word_to_list col
                      ++ skipn (index * 4 + 4) rk)
    | None => Panic "range end index out of range for slice"
    end.

(** One iteration [i] of the loop [for i in 1..11] of [Key128::expand];
    the mutable locals are [(rounds, previous_round_key)]. *)
Definition expand_step (i : nat) (st : list RoundKey * RoundKey)
  : result (list RoundKey * RoundKey) :=
  let '(rounds, previous_round_key) := st in
  let new_round_key := repeat 0 16 in
  column <- RoundKey_column previous_round_key 3 ;;
  let column := rot_word column in
  let column := sub_word column in
  constant <- index ROUND_CONSTANTS (i - 1) ;;
  let column := rcon column constant in
  prev_rk <- index rounds (i - 1) ;;
  previous_column <- RoundKey_column prev_rk 0 ;;
  let column := gf.add_word column previous_column in
  new_round_key <- RoundKey_set_column new_round_key 0 column ;;
  column <- RoundKey_column new_round_key 0 ;;
  previous_column <- RoundKey_column previous_round_key 1 ;;
  let column := gf.add_word column previous_column in
  new_round_key <- RoundKey_set_column new_round_key 1 column ;;
  column <- RoundKey_column new_round_key 1 ;;
  previous_column <- RoundKey_column previous_round_key 2 ;;
  new_round_key <- RoundKey_set_column new_round_key 2
                     (gf.add_word column previous_column) ;;
  column <- RoundKey_column new_round_key 2 ;;
  previous_column <- RoundKey_column previous_round_key 3 ;;
  new_round_key <- RoundKey_set_column new_round_key 3
                     (gf.add_word column previous_column) ;;
  let previous_round_key := new_round_key in
  rounds <- set_index rounds i new_round_key ;;
  Ok (rounds, previous_round_key).

(** [Key128::expand] of [src/src/aes/key.rs] *)
Definition Key128_expand (k : Key128) : result RoundKeys128 :=
  let rounds := repeat (repeat 0 16) 11 in
  let rounds := list_upd rounds 0 k in
  let previous_round_key := k in
  st <- for_each (seq 1 10) expand_step (rounds, previous_round_key) ;;
  Ok (fst st).

End key_file.

(** ** Module [state] of [src/src/aes.rs] *)

Module state.

Import key.

(** [State([u8; 16])], column-major; [Column([u8; 4])]. *)
Definition State := list u8.
Definition Column := u8x4.

(** [Column::mix]: [tmp[r]] computed from the column, then copied back. *)
Definition mix (c : Column) : Column :=
  let tmp0 := Z.lxor (Z.lxor (Z.lxor (gf.mult 0x02 (w0 c)) (gf.mult 0x03 (w1 c))) (w2 c)) (w3 c) in
  let tmp1 := Z.lxor (Z.lxor (Z.lxor (w0 c) (gf.mult 0x02 (w1 c))) (gf.mult 0x03 (w2 c))) (w3 c) in
  let tmp2 := Z.lxor (Z.lxor (Z.lxor (w0 c) (w1 c)) (gf.mult 0x02 (w2 c))) (gf.mult 0x03 (w3 c)) in
  let tmp3 := Z.lxor (Z.lxor (Z.lxor (gf.mult 0x03 (w0 c)) (w1 c)) (w2 c)) (gf.mult 0x02 (w3 c)) in
  W tmp0 tmp1 tmp2 tmp3.

(** [Column::inv_mix] *)
Definition inv_mix (c : Column) : Column :=
  let tmp0 := Z.lxor (Z.lxor (Z.lxor (gf.mult 0x0e (w0 c)) (gf.mult 0x0b (w1 c)))
                              (gf.mult 0x0d (w2 c))) (gf.mult 0x09 (w3 c)) in
  let tmp1 := Z.lxor (Z.lxor (Z.lxor (gf.mult 0x09 (w0 c)) (gf.mult 0x0e (w1 c)))
                              (gf.mult 0x0b (w2 c))) (gf.mult 0x0d (w3 c)) in
  let tmp2 := Z.lxor (Z.lxor (Z.lxor (gf.mult 0x0d (w0 c)) (gf.mult 0x09 (w1 c)))
                              (gf.mult 0x0e (w2 c))) (gf.mult 0x0b (w3 c)) in
  let tmp3 := Z.lxor (Z.lxor (Z.lxor (gf.mult 0x0b (w0 c)) (gf.mult 0x0d (w1 c)))
                              (gf.mult 0x09 (w2 c))) (gf.mult 0x0e (w3 c)) in
  W tmp0 tmp1 tmp2 tmp3.

(** [State::apply_sbox]: [self.0[i] = sbox[self.0[i] as usize]] for every
    [i]; each update reads only its own byte. *)
Definition apply_sbox (s : State) (sbox : list u8) : State :=
  map (sbox_lookup sbox) s.

Definition sub_bytes (s : State) : State := apply_sbox s SBOX_ENCRYPT.
Definition inv_sub_bytes (s : State) : State := apply_sbox s SBOX_DECRYPT.

(** [State::shift_rows], assignment by assignment. *)
Definition shift_rows (s : State) : State :=
  let tmp := get s (4 * 0 + 1) in
  let s := list_upd s (4 * 0 + 1) (get s (4 * 1 + 1)) in
  let s := list_upd s (4 * 1 + 1) (get s (4 * 2 + 1)) in
  let s := list_upd s (4 * 2 + 1) (get s (4 * 3 + 1)) in
  let s := list_upd s (4 * 3 + 1) tmp in
  let '(tmp1, tmp2) := (get s (4 * 0 + 2), get s (4 * 1 + 2)) in
  let s := list_upd s (4 * 0 + 2) (get s (4 * 2 + 2)) in
  let s := list_upd s (4 * 1 + 2) (get s (4 * 3 + 2)) in
  let s := list_upd s (4 * 2 + 2) tmp1 in
  let s := list_upd s (4 * 3 + 2) tmp2 in
  let tmp := get s (4 * 3 + 3) in
  let s := list_upd s (4 * 3 + 3) (get s (4 * 2 + 3)) in
  let s := list_upd s (4 * 2 + 3) (get s (4 * 1 + 3)) in
  let s := list_upd s (4 * 1 + 3) (get s (4 * 0 + 3)) in
  let s := list_upd s (4 * 0 + 3) tmp in
  s.

(** [State::inv_shift_rows], assignment by assignment. *)
Definition inv_shift_rows (s : State) : State :=
  let tmp := get s (4 * 3 + 1) in
  let s := list_upd s (4 * 3 + 1) (get s (4 * 2 + 1)) in
  let s := list_upd s (4 * 2 + 1) (get s (4 * 1 + 1)) in
  let s := list_upd s (4 * 1 + 1) (get s (4 * 0 + 1)) in
  let s := list_upd s (4 * 0 + 1) tmp in
  let '(tmp1, tmp2) := (get s (4 * 0 + 2), get s (4 * 1 + 2)) in
  let s := list_upd s (4 * 0 + 2) (get s (4 * 2 + 2)) in
  let s := list_upd s (4 * 1 + 2) (get s (4 * 3 + 2)) in
  let s := list_upd s (4 * 2 + 2) tmp1 in
  let s := list_upd s (4 * 3 + 2) tmp2 in
  let tmp := get s (4 * 0 + 3) in
  let s := list_upd s (4 * 0 + 3) (get s (4 * 1 + 3)) in
  let s := list_upd s (4 * 1 + 3) (get s (4 * 2 + 3)) in
  let s := list_upd s (4 * 2 + 3) (get s (4 * 3 + 3)) in
  let s := list_upd s (4 * 3 + 3) tmp in
  s.

(** [State::column]: [panic!] when [index > 3], then
    [self.0[index*4 .. index*4+4].try_into().unwrap()]. *)
Definition column (s : State) (index : nat) : result Column :=
  if (3 <? index)%nat then Panic "block only has 4 columns"
  else
    match get_range s (index * 4) (index * 4 + 4) with
    | Some slice => unwrap (try_into_word slice)
    | None => Panic "range end index out of range for slice"
    end.

(** [State::set_column]: [panic!] when [index > 3], then
    [self.0[index*4 + i] = column.0[i]] for [i] in [0..4]. *)
Definition set_column (s : State) (index : nat) (c : Column) : result State :=
  if (3 <? index)%nat then Panic "block only has 4 columns"
  else
    s <- set_index s (index * 4 + 0) (w0 c) ;;
    s <- set_index s (index * 4 + 1) (w1 c) ;;
    s <- set_index s (index * 4 + 2) (w2 c) ;;
    set_index s (index * 4 + 3) (w3 c).

(** [impl Index<(usize, usize)> for State]: [&self.0[row + 4 * col]],
    panicking when out of bounds. *)
Definition State_index (s : State) (row col : nat) : result u8 :=
  index s (row + 4 * col).

(** [State::mix_columns] *)
Definition mix_columns (s : State) : result State :=
  for_each (seq 0 4)
    (fun i s => c <- column s i ;; set_column s i (mix c)) s.

(** [State::inv_mix_columns] *)
Definition inv_mix_columns (s : State) : result State :=
  for_each (seq 0 4)
    (fun i s => c <- column s i ;; set_column s i (inv_mix c)) s.

(** [State::add_round_key]: [column.0[j] ^= key_word[j]] for [j] in
    [0..4], for each of the four columns. *)
Definition add_round_key (s : State) (round_key : RoundKey) : result State :=
  for_each (seq 0 4)
    (fun i s =>
       c <- column s i ;;
       key_word <- RoundKey_column round_key i ;;
       let c := W (Z.lxor (w0 c) (w0 key_word)) (Z.lxor (w1 c) (w1 key_word))
                  (Z.lxor (w2 c) (w2 key_word)) (Z.lxor (w3 c) (w3 key_word)) in
       set_column s i c) s.

End state.

(** ** The cipher driver of [src/src/aes.rs] *)

Import key state.

(** The body of the loop [for i in 1..(round_keys.len() - 1)] of [cipher]. *)
Definition cipher_round (round_keys : RoundKeys128) (i : nat) (s : State)
  : result State :=
  let s := sub_bytes s in
  let s := shift_rows s in
  s <- mix_columns s ;;
  rk <- index round_keys i ;;
  add_round_key s rk.

(** [cipher] *)
Definition cipher (input : list u8) (round_keys : RoundKeys128) : result (list u8) :=
  let s := input in
  rk <- index round_keys 0 ;;
  s <- add_round_key s rk ;;
  s <- for_each (seq 1 (length round_keys - 1 - 1)) (cipher_round round_keys) s ;;
  let s := sub_bytes s in
  let s := shift_rows s in
  rk <- index round_keys (length round_keys - 1) ;;
  add_round_key s rk.

(** The body of the loop [for i in (1..(round_keys.len() - 1)).rev()] of
    [inv_cipher]. *)
Definition inv_cipher_round (round_keys : RoundKeys128) (i : nat) (s : State)
  : result State :=
  let s := inv_shift_rows s in
  let s := inv_sub_bytes s in
  rk <- index round_keys i ;;
  s <- add_round_key s rk ;;
  inv_mix_columns s.

(** [inv_cipher]; [(a..b).rev()] is [rev (seq a (b - a))]. *)
Definition inv_cipher (input : list u8) (round_keys : RoundKeys128) : result (list u8) :=
  let s := input in
  rk <- index round_keys (length round_keys - 1) ;;
  s <- add_round_key s rk ;;
  s <- for_each (rev (seq 1 (length round_keys - 1 - 1))) (inv_cipher_round round_keys) s ;;
  let s := inv_shift_rows s in
  let s := inv_sub_bytes s in
  rk <- index round_keys 0 ;;
  add_round_key s rk.

(** [<[T]>::chunks(n)] for [n > 0]: consecutive chunks of length [n], the
    last one shorter when [n] does not divide the length. The fuel
    [length l] bounds the number of chunks. *)
Fixpoint chunks_fuel (fuel n : nat) (l : list u8) : list (list u8) :=
  match fuel with
  | O => []
  | S fuel' =>
      match l with
      | [] => []
      | _ => firstn n l :: chunks_fuel fuel' n (skipn n l)
      end
  end.

Definition chunks (l : list u8) (n : nat) : list (list u8) :=
  chunks_fuel (length l) n l.

(** [<[u8; 16]>::try_from(&[u8])] *)
Definition try_into_block (chunk : list u8) : option (list u8) :=
  if Nat.eqb (length chunk) 16 then Some chunk else None.

(** The body of the loop [for chunk in ciphertext.chunks(16)] of
    [decrypt_ecb]; the mutable local is [output]. *)
Definition decrypt_ecb_chunk (round_keys : RoundKeys128) (chunk : list u8)
           (output : list u8) : result (list u8) :=
  chunk <- match try_into_block chunk with
           | Some c => Ok c
           | None => Panic "input length needs to be a multiple of 16"
           end ;;
  decrypted <- inv_cipher chunk round_keys ;;
  Ok (output ++ decrypted).

(** [decrypt_ecb] *)
Definition decrypt_ecb (ciphertext : list u8) (k : Key128) : result (list u8) :=
  let output := [] in
  round_keys <- Key128_expand k ;;
  for_each (chunks ciphertext 16) (decrypt_ecb_chunk round_keys) output.

(** ** Reference definitions *)

(** Polynomials over GF(2) encoded as bit patterns: bit [i] of a [Z] is the
    coefficient of [x^i]. [poly_mul] is the product of two polynomials of
    degree below 8 (a sum, i.e. xor, of shifted copies of [a]). *)
Definition poly_mul (a b : Z) : Z :=
  fold_left (fun acc i => if Z.testbit b (Z.of_nat i)
                          then Z.lxor acc (Z.shiftl a (Z.of_nat i)) else acc)
            (seq 0 8) 0.

(** Remainder of a polynomial of degree at most 14 modulo the Rijndael
    polynomial x^8 + x^4 + x^3 + x + 1 (0x11b): long division, cancelling
    the terms x^14, ..., x^8 in turn. *)
Definition poly_mod_rijndael (p : Z) : Z :=
  fold_left (fun p d => if Z.testbit p (Z.of_nat d)
                        then Z.lxor p (Z.shiftl 0x11b (Z.of_nat d - 8)) else p)
            (rev (seq 8 7)) p.

Definition rijndael_mult (a b : Z) : Z := poly_mod_rijndael (poly_mul a b).

(** ** Auxiliary definitions of the proofs *)

(** [mix_columns] and [inv_mix_columns] share their loop; [map_columns f]
    is that loop with the column transformation [f] left abstract. *)
Definition map_columns (f : u8x4 -> u8x4) (s : State) : result State :=
  for_each (seq 0 4) (fun i s => c <- column s i ;; set_column s i (f c)) s.

(** The state of the loop of [Key128::expand] stays well formed: eleven
    round keys of sixteen bytes, and a previous round key of sixteen bytes. *)
Definition expand_inv (st : list RoundKey * RoundKey) : Prop :=
  length (fst st) = 11%nat /\ forallb is_block (fst st) = true /\
  is_block (snd st) = true.

(** A key schedule of eleven well-formed round keys, as [Key128::expand]
    returns it. *)
Definition schedule_ok (rks : RoundKeys128) : Prop :=
  length rks = 11%nat /\ forallb is_block rks = true.

(** [o] is the decryption of the chunk [ch] under the schedule [rks]. *)
Definition decrypts (rks : RoundKeys128) : list u8 -> list u8 -> Prop :=
  fun ch o => inv_cipher ch rks = Ok o.

(** The known-answer vectors of FIPS-197 Appendix B, as in the test
    [test_encrypt_block_from_spec]. *)
Definition fips_key : Key128 :=
  [0x2b; 0x7e; 0x15; 0x16; 0x28; 0xae; 0xd2; 0xa6;
   0xab; 0xf7; 0x15; 0x88; 0x09; 0xcf; 0x4f; 0x3c].

Definition fips_plaintext : list u8 :=
  [0x32; 0x43; 0xf6; 0xa8; 0x88; 0x5a; 0x30; 0x8d;
   0x31; 0x31; 0x98; 0xa2; 0xe0; 0x37; 0x07; 0x34].

Definition fips_ciphertext : list u8 :=
  [0x39; 0x25; 0x84; 0x1d; 0x02; 0xdc; 0x09; 0xfb;
   0xdc; 0x11; 0x85; 0x97; 0x19; 0x6a; 0x0b; 0x32].

(** The ciphertext [3925851d02dc09fbdc118597196a0b32] given by the
    specification. *)
Definition spec_ciphertext : list u8 :=
  [0x39; 0x25; 0x85; 0x1d; 0x02; 0xdc; 0x09; 0xfb;
   0xdc; 0x11; 0x85; 0x97; 0x19; 0x6a; 0x0b; 0x32].

(** Round keys 1 and 10 of the expansion of [fips_key] (FIPS-197
    Appendix A.1). *)
Definition fips_round_key_1 : RoundKey :=
  [0xa0; 0xfa; 0xfe; 0x17; 0x88; 0x54; 0x2c; 0xb1;
   0x23; 0xa3; 0x39; 0x39; 0x2a; 0x6c; 0x76; 0x05].

Definition fips_round_key_10 : RoundKey :=
  [0xd0; 0x14; 0xf9; 0xa8; 0xc9; 0xee; 0x25; 0x89;
   0xe1; 0x3f; 0x0c; 0xc8; 0xb6; 0x63; 0x0c; 0xa6].

(** The result of a computation that does not panic, [[]] otherwise. *)
Definition ok_or_nil {A} (r : result (list A)) : list A :=
  match r with Ok x => x | Panic _ => [] end.

(** Column [j] of a round key, read byte by byte. *)
Definition col_of (rk : RoundKey) (j : nat) : u8x4 :=
  W (get rk (4 * j)) (get rk (4 * j + 1)) (get rk (4 * j + 2)) (get rk (4 * j + 3)).

(** The four column equations of one iteration of [Key128::expand]: [new]
    is the round key computed from the previous one [prev] and the round
    constant [rc]. *)
Definition key_step_rel (prev : RoundKey) (rc : Rcon) (new : RoundKey) : Prop :=
  col_of new 0 = gf.add_word (rcon (sub_word (rot_word (col_of prev 3))) rc) (col_of prev 0) /\
  col_of new 1 = gf.add_word (col_of new 0) (col_of prev 1) /\
  col_of new 2 = gf.add_word (col_of new 1) (col_of prev 2) /\
  col_of new 3 = gf.add_word (col_of new 2) (col_of prev 3).

Definition round_constant (i : nat) : Rcon := nth i ROUND_CONSTANTS (W 0 0 0 0).

(** The state of the loop of [Key128::expand] after the iterations
    [1..=n]. *)
Definition expand_rel (k : Key128) (n : nat) (st : list RoundKey * RoundKey) : Prop :=
  expand_inv st /\ nth n (fst st) [] = snd st /\ nth 0 (fst st) [] = k /\
  forall i, (1 <= i <= n)%nat ->
    key_step_rel (nth (i - 1) (fst st) []) (round_constant (i - 1)) (nth i (fst st) []).

(** Multiplication by [x] in GF(2^8) on a byte, as the loop of [gf::mult]
    updates [a]. *)
Definition xtime (a : u8) : u8 :=
  if negb (Z.land a 0x80 =? 0) then gf.add (Z.land (Z.shiftl a 1) 255) 0x1b
  else Z.land (Z.shiftl a 1) 255.

(** ** Exhaustive checks over bytes *)

Definition all_bytes (f : Z -> bool) : bool :=
  forallb (fun n => f (Z.of_nat n)) (seq 0 256).

Lemma all_bytes_spec (f : Z -> bool) :
  all_bytes f = true -> forall x, 0 <= x < 256 -> f x = true.
Proof.
  unfold all_bytes; rewrite forallb_forall; intros H x Hx.
  replace x with (Z.of_nat (Z.to_nat x)) by lia.
  apply H, in_seq; lia.
Qed.

Lemma all_bytes2_spec (f : Z -> Z -> bool) :
  all_bytes (fun a => all_bytes (f a)) = true ->
  forall a b, 0 <= a < 256 -> 0 <= b < 256 -> f a b = true.
Proof.
  intros H a b Ha Hb.
  exact (all_bytes_spec _ (all_bytes_spec _ H a Ha) b Hb).
Qed.

Lemma mult_rijndael_all :
  all_bytes (fun a => all_bytes (fun b => gf.mult a b =? rijndael_mult a b)) = true.
Proof. vm_compute. reflexivity. Qed.

Lemma mult_byte_all :
  all_bytes (fun a => all_bytes (fun b => is_byte (gf.mult a b))) = true.
Proof. vm_compute. reflexivity. Qed.

Lemma xor_byte_all :
  all_bytes (fun a => all_bytes (fun b => is_byte (Z.lxor a b))) = true.
Proof. vm_compute. reflexivity. Qed.

Lemma is_byte_spec (x : Z) : is_byte x = true <-> 0 <= x < 256.
Proof. unfold is_byte; rewrite andb_true_iff, Z.leb_le, Z.ltb_lt; lia. Qed.

Lemma mult_byte (a b : Z) :
  0 <= a < 256 -> 0 <= b < 256 -> 0 <= gf.mult a b < 256.
Proof.
  intros Ha Hb; apply is_byte_spec.
  exact (all_bytes2_spec _ mult_byte_all a b Ha Hb).
Qed.

Lemma xor_byte (a b : Z) :
  0 <= a < 256 -> 0 <= b < 256 -> 0 <= Z.lxor a b < 256.
Proof.
  intros Ha Hb; apply is_byte_spec.
  exact (all_bytes2_spec _ xor_byte_all a b Ha Hb).
Qed.

Lemma sbox_inverse_all :
  all_bytes (fun x =>
    (sbox_lookup SBOX_ENCRYPT (sbox_lookup SBOX_DECRYPT x) =? x)
    && (sbox_lookup SBOX_DECRYPT (sbox_lookup SBOX_ENCRYPT x) =? x)
    && is_byte (sbox_lookup SBOX_ENCRYPT x)
    && is_byte (sbox_lookup SBOX_DECRYPT x)) = true.
Proof. vm_compute. reflexivity. Qed.

Lemma sbox_encrypt_byte (x : Z) :
  0 <= x < 256 -> 0 <= sbox_lookup SBOX_ENCRYPT x < 256.
Proof.
  intros Hx; pose proof (all_bytes_spec _ sbox_inverse_all x Hx) as H.
  rewrite !andb_true_iff in H; apply is_byte_spec; tauto.
Qed.

Lemma sbox_decrypt_encrypt (x : Z) :
  0 <= x < 256 -> sbox_lookup SBOX_DECRYPT (sbox_lookup SBOX_ENCRYPT x) = x.
Proof.
  intros Hx; pose proof (all_bytes_spec _ sbox_inverse_all x Hx) as H.
  rewrite !andb_true_iff, !Z.eqb_eq in H; tauto.
Qed.


Lemma mult_xor_all :
  all_bytes (fun x => all_bytes (fun y =>
    forallb (fun k => gf.mult k (Z.lxor x y) =? Z.lxor (gf.mult k x) (gf.mult k y))
            [0x0e; 0x0b; 0x0d; 0x09])) = true.
Proof. vm_compute. reflexivity. Qed.

(** Multiplication by each coefficient of the inverse MDS matrix distributes
    over xor. *)
Lemma mult_xor (k x y : Z) :
  In k [0x0e; 0x0b; 0x0d; 0x09] -> 0 <= x < 256 -> 0 <= y < 256 ->
  gf.mult k (Z.lxor x y) = Z.lxor (gf.mult k x) (gf.mult k y).
Proof.
  intros Hk Hx Hy.
  pose proof (all_bytes2_spec _ mult_xor_all x y Hx Hy) as H.
  rewrite forallb_forall in H; apply Z.eqb_eq, H, Hk.
Qed.

(** The product of the inverse MDS matrix with the MDS matrix, entry by
    entry: coefficient [(r, j)] applied to a byte [x] is [x] on the diagonal
    and [0] elsewhere. *)
Lemma inv_mix_mix_terms_all :
  all_bytes (fun x =>
    (Z.lxor (Z.lxor (Z.lxor (gf.mult 0x0e (gf.mult 0x02 x)) (gf.mult 0x0b x)) (gf.mult 0x0d x)) (gf.mult 0x09 (gf.mult 0x03 x)) =? x) &&
    (Z.lxor (Z.lxor (Z.lxor (gf.mult 0x0e (gf.mult 0x03 x)) (gf.mult 0x0b (gf.mult 0x02 x))) (gf.mult 0x0d x)) (gf.mult 0x09 x) =? 0) &&
    (Z.lxor (Z.lxor (Z.lxor (gf.mult 0x0e x) (gf.mult 0x0b (gf.mult 0x03 x))) (gf.mult 0x0d (gf.mult 0x02 x))) (gf.mult 0x09 x) =? 0) &&
    (Z.lxor (Z.lxor (Z.lxor (gf.mult 0x0e x) (gf.mult 0x0b x)) (gf.mult 0x0d (gf.mult 0x03 x))) (gf.mult 0x09 (gf.mult 0x02 x)) =? 0) &&
    (Z.lxor (Z.lxor (Z.lxor (gf.mult 0x09 (gf.mult 0x02 x)) (gf.mult 0x0e x)) (gf.mult 0x0b x)) (gf.mult 0x0d (gf.mult 0x03 x)) =? 0) &&
    (Z.lxor (Z.lxor (Z.lxor (gf.mult 0x09 (gf.mult 0x03 x)) (gf.mult 0x0e (gf.mult 0x02 x))) (gf.mult 0x0b x)) (gf.mult 0x0d x) =? x) &&
    (Z.lxor (Z.lxor (Z.lxor (gf.mult 0x09 x) (gf.mult 0x0e (gf.mult 0x03 x))) (gf.mult 0x0b (gf.mult 0x02 x))) (gf.mult 0x0d x) =? 0) &&
    (Z.lxor (Z.lxor (Z.lxor (gf.mult 0x09 x) (gf.mult 0x0e x)) (gf.mult 0x0b (gf.mult 0x03 x))) (gf.mult 0x0d (gf.mult 0x02 x)) =? 0) &&
    (Z.lxor (Z.lxor (Z.lxor (gf.mult 0x0d (gf.mult 0x02 x)) (gf.mult 0x09 x)) (gf.mult 0x0e x)) (gf.mult 0x0b (gf.mult 0x03 x)) =? 0) &&
    (Z.lxor (Z.lxor (Z.lxor (gf.mult 0x0d (gf.mult 0x03 x)) (gf.mult 0x09 (gf.mult 0x02 x))) (gf.mult 0x0e x)) (gf.mult 0x0b x) =? 0) &&
    (Z.lxor (Z.lxor (Z.lxor (gf.mult 0x0d x) (gf.mult 0x09 (gf.mult 0x03 x))) (gf.mult 0x0e (gf.mult 0x02 x))) (gf.mult 0x0b x) =? x) &&
    (Z.lxor (Z.lxor (Z.lxor (gf.mult 0x0d x) (gf.mult 0x09 x)) (gf.mult 0x0e (gf.mult 0x03 x))) (gf.mult 0x0b (gf.mult 0x02 x)) =? 0) &&
    (Z.lxor (Z.lxor (Z.lxor (gf.mult 0x0b (gf.mult 0x02 x)) (gf.mult 0x0d x)) (gf.mult 0x09 x)) (gf.mult 0x0e (gf.mult 0x03 x)) =? 0) &&
    (Z.lxor (Z.lxor (Z.lxor (gf.mult 0x0b (gf.mult 0x03 x)) (gf.mult 0x0d (gf.mult 0x02 x))) (gf.mult 0x09 x)) (gf.mult 0x0e x) =? 0) &&
    (Z.lxor (Z.lxor (Z.lxor (gf.mult 0x0b x) (gf.mult 0x0d (gf.mult 0x03 x))) (gf.mult 0x09 (gf.mult 0x02 x))) (gf.mult 0x0e x) =? 0) &&
    (Z.lxor (Z.lxor (Z.lxor (gf.mult 0x0b x) (gf.mult 0x0d x)) (gf.mult 0x09 (gf.mult 0x03 x))) (gf.mult 0x0e (gf.mult 0x02 x)) =? x)) = true.
Proof. vm_compute. reflexivity. Qed.

Lemma inv_mix_mix_terms (x : Z) :
  0 <= x < 256 ->
  (Z.lxor (Z.lxor (Z.lxor (gf.mult 0x0e (gf.mult 0x02 x)) (gf.mult 0x0b x)) (gf.mult 0x0d x)) (gf.mult 0x09 (gf.mult 0x03 x)) = x) /\
  (Z.lxor (Z.lxor (Z.lxor (gf.mult 0x0e (gf.mult 0x03 x)) (gf.mult 0x0b (gf.mult 0x02 x))) (gf.mult 0x0d x)) (gf.mult 0x09 x) = 0) /\
  (Z.lxor (Z.lxor (Z.lxor (gf.mult 0x0e x) (gf.mult 0x0b (gf.mult 0x03 x))) (gf.mult 0x0d (gf.mult 0x02 x))) (gf.mult 0x09 x) = 0) /\
  (Z.lxor (Z.lxor (Z.lxor (gf.mult 0x0e x) (gf.mult 0x0b x)) (gf.mult 0x0d (gf.mult 0x03 x))) (gf.mult 0x09 (gf.mult 0x02 x)) = 0) /\
  (Z.lxor (Z.lxor (Z.lxor (gf.mult 0x09 (gf.mult 0x02 x)) (gf.mult 0x0e x)) (gf.mult 0x0b x)) (gf.mult 0x0d (gf.mult 0x03 x)) = 0) /\
  (Z.lxor (Z.lxor (Z.lxor (gf.mult 0x09 (gf.mult 0x03 x)) (gf.mult 0x0e (gf.mult 0x02 x))) (gf.mult 0x0b x)) (gf.mult 0x0d x) = x) /\
  (Z.lxor (Z.lxor (Z.lxor (gf.mult 0x09 x) (gf.mult 0x0e (gf.mult 0x03 x))) (gf.mult 0x0b (gf.mult 0x02 x))) (gf.mult 0x0d x) = 0) /\
  (Z.lxor (Z.lxor (Z.lxor (gf.mult 0x09 x) (gf.mult 0x0e x)) (gf.mult 0x0b (gf.mult 0x03 x))) (gf.mult 0x0d (gf.mult 0x02 x)) = 0) /\
  (Z.lxor (Z.lxor (Z.lxor (gf.mult 0x0d (gf.mult 0x02 x)) (gf.mult 0x09 x)) (gf.mult 0x0e x)) (gf.mult 0x0b (gf.mult 0x03 x)) = 0) /\
  (Z.lxor (Z.lxor (Z.lxor (gf.mult 0x0d (gf.mult 0x03 x)) (gf.mult 0x09 (gf.mult 0x02 x))) (gf.mult 0x0e x)) (gf.mult 0x0b x) = 0) /\
  (Z.lxor (Z.lxor (Z.lxor (gf.mult 0x0d x) (gf.mult 0x09 (gf.mult 0x03 x))) (gf.mult 0x0e (gf.mult 0x02 x))) (gf.mult 0x0b x) = x) /\
  (Z.lxor (Z.lxor (Z.lxor (gf.mult 0x0d x) (gf.mult 0x09 x)) (gf.mult 0x0e (gf.mult 0x03 x))) (gf.mult 0x0b (gf.mult 0x02 x)) = 0) /\
  (Z.lxor (Z.lxor (Z.lxor (gf.mult 0x0b (gf.mult 0x02 x)) (gf.mult 0x0d x)) (gf.mult 0x09 x)) (gf.mult 0x0e (gf.mult 0x03 x)) = 0) /\
  (Z.lxor (Z.lxor (Z.lxor (gf.mult 0x0b (gf.mult 0x03 x)) (gf.mult 0x0d (gf.mult 0x02 x))) (gf.mult 0x09 x)) (gf.mult 0x0e x) = 0) /\
  (Z.lxor (Z.lxor (Z.lxor (gf.mult 0x0b x) (gf.mult 0x0d (gf.mult 0x03 x))) (gf.mult 0x09 (gf.mult 0x02 x))) (gf.mult 0x0e x) = 0) /\
  (Z.lxor (Z.lxor (Z.lxor (gf.mult 0x0b x) (gf.mult 0x0d x)) (gf.mult 0x09 (gf.mult 0x03 x))) (gf.mult 0x0e (gf.mult 0x02 x)) = x).
Proof.
  intros Hx; pose proof (all_bytes_spec _ inv_mix_mix_terms_all x Hx) as H.
  rewrite !andb_true_iff, !Z.eqb_eq in H; tauto.
Qed.

#[export] Instance lxor_assoc : Associative eq Z.lxor.
Proof. intros a b c; symmetry; apply Z.lxor_assoc. Qed.

#[export] Instance lxor_comm : Commutative eq Z.lxor.
Proof. intros a b; apply Z.lxor_comm. Qed.

#[export] Instance lxor_unit : Unit eq Z.lxor 0.
Proof. split; intros a; [apply Z.lxor_0_l | apply Z.lxor_0_r]. Qed.

#[export] Instance lxor_proper : Proper (eq ==> eq ==> eq) Z.lxor.
Proof. repeat intro; subst; reflexivity. Qed.

Lemma sbox_decrypt_byte (x : Z) :
  0 <= x < 256 -> 0 <= sbox_lookup SBOX_DECRYPT x < 256.
Proof.
  intros Hx; pose proof (all_bytes_spec _ sbox_inverse_all x Hx) as H.
  rewrite !andb_true_iff in H; apply is_byte_spec; tauto.
Qed.

(** Closes goals [0 <= e < 256] for expressions built from bytes. *)
Ltac bytes :=
  solve [repeat first [ assumption | apply xor_byte | apply mult_byte
                      | apply sbox_encrypt_byte | apply sbox_decrypt_byte
                      | progress (unfold mix, inv_mix; cbn [w0 w1 w2 w3])
                      | lia ]].

Section MixColumns.

Local Opaque gf.mult.

Lemma inv_mix_mix_column (c : u8x4) :
  0 <= w0 c < 256 -> 0 <= w1 c < 256 -> 0 <= w2 c < 256 -> 0 <= w3 c < 256 ->
  inv_mix (mix c) = c.
Proof.
  destruct c as [a0 a1 a2 a3]; cbn [w0 w1 w2 w3]; intros H0 H1 H2 H3.
  unfold inv_mix, mix; cbn [w0 w1 w2 w3].
  repeat rewrite mult_xor by first [cbn; tauto | bytes].
  destruct (inv_mix_mix_terms a0 H0)
    as (P00 & P01 & P02 & P03 & P10 & P11 & P12 & P13 & P20 & P21 & P22 & P23 & P30 & P31 & P32 & P33).
  destruct (inv_mix_mix_terms a1 H1)
    as (Q00 & Q01 & Q02 & Q03 & Q10 & Q11 & Q12 & Q13 & Q20 & Q21 & Q22 & Q23 & Q30 & Q31 & Q32 & Q33).
  destruct (inv_mix_mix_terms a2 H2)
    as (R00 & R01 & R02 & R03 & R10 & R11 & R12 & R13 & R20 & R21 & R22 & R23 & R30 & R31 & R32 & R33).
  destruct (inv_mix_mix_terms a3 H3)
    as (S00 & S01 & S02 & S03 & S10 & S11 & S12 & S13 & S20 & S21 & S22 & S23 & S30 & S31 & S32 & S33).
  f_equal.
  - aac_rewrite P00; aac_rewrite Q01; aac_rewrite R02; aac_rewrite S03;
    aac_reflexivity.
  - aac_rewrite P10; aac_rewrite Q11; aac_rewrite R12; aac_rewrite S13;
    aac_reflexivity.
  - aac_rewrite P20; aac_rewrite Q21; aac_rewrite R22; aac_rewrite S23;
    aac_reflexivity.
  - aac_rewrite P30; aac_rewrite Q31; aac_rewrite R32; aac_rewrite S33;
    aac_reflexivity.
Qed.

End MixColumns.

(** ** Blocks *)

(** Splits [H : is_block s = true] into the sixteen bytes of [s]. *)
Ltac destruct_block s H :=
  let Hlen := fresh "Hlen" in let Hall := fresh "Hall" in
  unfold is_block in H; apply andb_prop in H; destruct H as [Hlen Hall];
  apply Nat.eqb_eq in Hlen;
  do 16 (let x := fresh "x" in destruct s as [|x s]; [discriminate Hlen|]);
  destruct s; [|discriminate Hlen]; clear Hlen;
  cbn [forallb] in Hall; rewrite ?andb_true_iff in Hall;
  repeat match type of Hall with
         | _ /\ _ => let Hb := fresh "Hb" in
                     destruct Hall as [Hb Hall]; apply is_byte_spec in Hb
         end;
  clear Hall.

Lemma is_block_intro (l : list Z) :
  length l = 16%nat -> Forall (fun x => 0 <= x < 256) l -> is_block l = true.
Proof.
  intros Hlen Hall; unfold is_block; apply andb_true_intro; split.
  - apply Nat.eqb_eq, Hlen.
  - apply forallb_forall; intros x Hx; apply is_byte_spec.
    rewrite Forall_forall in Hall; apply Hall, Hx.
Qed.

(** Proves [is_block [e0; ...; e15] = true]. *)
Ltac prove_block :=
  apply is_block_intro; [reflexivity|];
  repeat (apply Forall_cons; [bytes|]); apply Forall_nil.

Lemma W_eta (c : u8x4) : W (w0 c) (w1 c) (w2 c) (w3 c) = c.
Proof. destruct c; reflexivity. Qed.

Lemma lxor_cancel (a b : Z) : Z.lxor (Z.lxor a b) b = a.
Proof. rewrite Z.lxor_assoc, Z.lxor_nilpotent, Z.lxor_0_r; reflexivity. Qed.

Lemma is_block_length (s : list Z) : is_block s = true -> length s = 16%nat.
Proof. unfold is_block; rewrite andb_true_iff, Nat.eqb_eq; tauto. Qed.

Lemma is_block_bytes (s : list Z) : is_block s = true -> forallb is_byte s = true.
Proof. unfold is_block; rewrite andb_true_iff; tauto. Qed.

(** *** ShiftRows *)

Lemma inv_shift_rows_shift_rows (s : State) :
  length s = 16%nat -> inv_shift_rows (shift_rows s) = s.
Proof.
  intros Hlen.
  do 16 (let x := fresh "x" in destruct s as [|x s]; [discriminate Hlen|]).
  destruct s; [reflexivity | discriminate Hlen].
Qed.

Lemma shift_rows_block (s : State) :
  is_block s = true -> is_block (shift_rows s) = true.
Proof. intros H; destruct_block s H; cbn -[is_block]; prove_block. Qed.

Lemma inv_shift_rows_block (s : State) :
  is_block s = true -> is_block (inv_shift_rows s) = true.
Proof. intros H; destruct_block s H; cbn -[is_block]; prove_block. Qed.

(** *** SubBytes *)

Lemma apply_sbox_block (s : State) (sbox : list u8) :
  (forall x, 0 <= x < 256 -> 0 <= sbox_lookup sbox x < 256) ->
  is_block s = true -> is_block (apply_sbox s sbox) = true.
Proof.
  unfold is_block, apply_sbox; intros Hsbox H.
  apply andb_prop in H as [Hlen Hall]; apply Nat.eqb_eq in Hlen.
  apply andb_true_intro; split.
  { apply Nat.eqb_eq; rewrite length_map; exact Hlen. }
  rewrite forallb_forall in *; intros y Hy.
  apply in_map_iff in Hy as (x & <- & Hx).
  apply is_byte_spec, Hsbox, is_byte_spec, Hall, Hx.
Qed.

Lemma sub_bytes_block (s : State) :
  is_block s = true -> is_block (sub_bytes s) = true.
Proof. apply apply_sbox_block, sbox_encrypt_byte. Qed.

Lemma inv_sub_bytes_block (s : State) :
  is_block s = true -> is_block (inv_sub_bytes s) = true.
Proof. apply apply_sbox_block, sbox_decrypt_byte. Qed.

Lemma inv_sub_bytes_sub_bytes (s : State) :
  is_block s = true -> inv_sub_bytes (sub_bytes s) = s.
Proof.
  intros H; apply is_block_bytes in H.
  unfold inv_sub_bytes, sub_bytes, apply_sbox; rewrite map_map.
  rewrite forallb_forall in H.
  rewrite map_ext_in with (g := fun x => x); [apply map_id|].
  intros x Hx; apply sbox_decrypt_encrypt, is_byte_spec, H, Hx.
Qed.

(** *** AddRoundKey *)

Lemma add_round_key_ok (s rk : list Z) :
  is_block s = true -> is_block rk = true ->
  exists s', add_round_key s rk = Ok s' /\ is_block s' = true /\
             add_round_key s' rk = Ok s.
Proof.
  intros Hs Hrk; destruct_block s Hs; destruct_block rk Hrk.
  eexists; split; [cbn; reflexivity|]; split.
  - prove_block.
  - cbn; rewrite !lxor_cancel; reflexivity.
Qed.

(** *** MixColumns *)

Lemma mix_columns_map (s : State) : mix_columns s = map_columns mix s.
Proof. reflexivity. Qed.

Lemma inv_mix_columns_map (s : State) : inv_mix_columns s = map_columns inv_mix s.
Proof. reflexivity. Qed.

Lemma map_columns_block (f : u8x4 -> u8x4)
      (x0 x1 x2 x3 x4 x5 x6 x7 x8 x9 x10 x11 x12 x13 x14 x15 : u8) :
  map_columns f [x0; x1; x2; x3; x4; x5; x6; x7; x8; x9; x10; x11; x12; x13; x14; x15]
  = Ok [w0 (f (W x0 x1 x2 x3)); w1 (f (W x0 x1 x2 x3));
        w2 (f (W x0 x1 x2 x3)); w3 (f (W x0 x1 x2 x3));
        w0 (f (W x4 x5 x6 x7)); w1 (f (W x4 x5 x6 x7));
        w2 (f (W x4 x5 x6 x7)); w3 (f (W x4 x5 x6 x7));
        w0 (f (W x8 x9 x10 x11)); w1 (f (W x8 x9 x10 x11));
        w2 (f (W x8 x9 x10 x11)); w3 (f (W x8 x9 x10 x11));
        w0 (f (W x12 x13 x14 x15)); w1 (f (W x12 x13 x14 x15));
        w2 (f (W x12 x13 x14 x15)); w3 (f (W x12 x13 x14 x15))].
Proof. reflexivity. Qed.

Lemma mix_columns_ok (s : State) :
  is_block s = true ->
  exists s', mix_columns s = Ok s' /\ is_block s' = true /\
             inv_mix_columns s' = Ok s.
Proof.
  intros Hs; destruct_block s Hs.
  rewrite mix_columns_map, map_columns_block.
  eexists; split; [reflexivity|]; split.
  - prove_block.
  - rewrite inv_mix_columns_map, map_columns_block, !W_eta.
    rewrite !inv_mix_mix_column by bytes; reflexivity.
Qed.

Lemma inv_mix_columns_ok (s : State) :
  is_block s = true ->
  exists s', inv_mix_columns s = Ok s' /\ is_block s' = true.
Proof.
  intros Hs; destruct_block s Hs.
  rewrite inv_mix_columns_map, map_columns_block.
  eexists; split; [reflexivity|]; prove_block.
Qed.

(** ** Loops *)

Lemma for_each_app {A S} (l1 l2 : list A) (body : A -> S -> result S) (s : S) :
  for_each (l1 ++ l2) body s = bind (for_each l1 body s) (fun s' => for_each l2 body s').
Proof.
  revert s; induction l1 as [|x l1 IH]; intros s; cbn; [reflexivity|].
  destruct (body x s); cbn; [apply IH | reflexivity].
Qed.

(** A loop whose body keeps an invariant and never panics. *)
Lemma for_each_invariant {A S} (P : S -> Prop) (l : list A) (body : A -> S -> result S) :
  (forall x s, In x l -> P s -> exists s', body x s = Ok s' /\ P s') ->
  forall s, P s -> exists s', for_each l body s = Ok s' /\ P s'.
Proof.
  induction l as [|x l IH]; intros Hbody s Hs; cbn.
  - exists s; split; [reflexivity | exact Hs].
  - destruct (Hbody x s (or_introl eq_refl) Hs) as (s1 & -> & Hs1); cbn.
    apply IH; [intros y t Hy; apply Hbody; right; exact Hy | exact Hs1].
Qed.

Lemma length_list_upd {A} (l : list A) (i : nat) (v : A) :
  length (list_upd l i v) = length l.
Proof.
  revert i; induction l as [|x l IH]; intros [|i]; cbn; auto.
Qed.

Lemma forallb_list_upd {A} (f : A -> bool) (l : list A) (i : nat) (v : A) :
  forallb f l = true -> f v = true -> forallb f (list_upd l i v) = true.
Proof.
  revert i; induction l as [|x l IH]; intros [|i] Hl Hv; cbn in *; auto;
    apply andb_prop in Hl as [Hx Hl]; rewrite ?Hx, ?Hv; cbn; auto.
Qed.

(** ** Key expansion never panics *)

Lemma round_constant_ok (j : nat) :
  (j < 10)%nat ->
  exists rc, nth_error ROUND_CONSTANTS j = Some rc /\
    0 <= w0 rc < 256 /\ 0 <= w1 rc < 256 /\ 0 <= w2 rc < 256 /\ 0 <= w3 rc < 256.
Proof.
  intros Hj.
  destruct (nth_error ROUND_CONSTANTS j) as [rc|] eqn:E.
  - exists rc; split; [reflexivity|].
    apply nth_error_In in E; cbn in E.
    repeat destruct E as [<- | E]; cbn; try lia; contradiction.
  - apply nth_error_None in E; cbn in E; lia.
Qed.

Lemma nth_block (rks : list RoundKey) (j : nat) :
  forallb is_block rks = true -> (j < length rks)%nat ->
  exists r, nth_error rks j = Some r /\ is_block r = true.
Proof.
  intros Hall Hj.
  destruct (nth_error rks j) as [r|] eqn:E.
  - exists r; split; [reflexivity|].
    rewrite forallb_forall in Hall; apply Hall, (nth_error_In _ _ E).
  - apply nth_error_None in E; lia.
Qed.

Lemma expand_step_ok (i : nat) (st : list RoundKey * RoundKey) :
  (1 <= i <= 10)%nat -> expand_inv st ->
  exists st', expand_step i st = Ok st' /\ expand_inv st'.
Proof.
  destruct st as [rounds prev]; intros Hi (Hlen & Hall & Hprev); cbn [fst snd] in *.
  destruct (round_constant_ok (i - 1)) as ([r0 r1 r2 r3] & Hrc & Hr0 & Hr1 & Hr2 & Hr3);
    [lia|]; cbn [w0 w1 w2 w3] in *.
  destruct (nth_block rounds (i - 1)) as (r & Hr & Hrb); [exact Hall | lia|].
  unfold expand_step, index, set_index.
  rewrite Hrc, Hr, Hlen, (proj2 (Nat.ltb_lt i 11)) by lia.
  destruct_block prev Hprev; destruct_block r Hrb.
  cbn -[sbox_lookup Z.lxor is_block list_upd]; unfold gf.add.
  eexists; split; [reflexivity|].
  unfold expand_inv; cbn [fst snd]; split; [|split].
  - rewrite length_list_upd; exact Hlen.
  - apply forallb_list_upd; [exact Hall|]; prove_block.
  - prove_block.
Qed.

Lemma expand_ok (k : Key128) :
  is_block k = true ->
  exists round_keys, Key128_expand k = Ok round_keys /\
    length round_keys = 11%nat /\ forallb is_block round_keys = true.
Proof.
  intros Hk; unfold Key128_expand.
  destruct (for_each_invariant expand_inv (seq 1 10) expand_step)
    with (s := (list_upd (repeat (repeat 0 16) 11) 0 k, k)) as (st & -> & Hst).
  - intros i st Hi Hinv; apply in_seq in Hi; apply expand_step_ok; [lia | exact Hinv].
  - unfold expand_inv; cbn [fst snd list_upd repeat length forallb].
    rewrite Hk; split; [reflexivity | split; reflexivity].
  - exists (fst st); destruct Hst as (Hlen & Hall & _); cbn; auto.
Qed.

(** ** The cipher driver never panics and [inv_cipher] undoes [cipher] *)

Lemma index_block (rks : list RoundKey) (j : nat) :
  forallb is_block rks = true -> (j < length rks)%nat ->
  exists rk, index rks j = Ok rk /\ is_block rk = true.
Proof.
  intros Hall Hj; destruct (nth_block rks j Hall Hj) as (rk & Hrk & Hb).
  exists rk; unfold index; rewrite Hrk; auto.
Qed.

Lemma sub_shift_block (s : State) :
  is_block s = true -> is_block (shift_rows (sub_bytes s)) = true.
Proof. intros H; apply shift_rows_block, sub_bytes_block, H. Qed.

Lemma cipher_round_ok (rks : RoundKeys128) (i : nat) (s : State) :
  forallb is_block rks = true -> (i < length rks)%nat -> is_block s = true ->
  exists s', cipher_round rks i s = Ok s' /\ is_block s' = true /\
    inv_cipher_round rks i (shift_rows (sub_bytes s')) = Ok (shift_rows (sub_bytes s)).
Proof.
  intros Hrks Hi Hs.
  destruct (mix_columns_ok (shift_rows (sub_bytes s))) as (m & Hm & Hmb & Hinvm);
    [apply sub_shift_block, Hs|].
  destruct (index_block rks i Hrks Hi) as (rk & Hrk & Hrkb).
  destruct (add_round_key_ok m rk Hmb Hrkb) as (s' & Hark & Hs' & Hark').
  exists s'; split; [|split; [exact Hs'|]].
  - unfold cipher_round; rewrite Hm; cbn [bind]; rewrite Hrk; exact Hark.
  - unfold inv_cipher_round.
    rewrite inv_shift_rows_shift_rows
      by (apply is_block_length, sub_bytes_block, Hs').
    rewrite inv_sub_bytes_sub_bytes by exact Hs'.
    rewrite Hrk; cbn [bind]; rewrite Hark'; exact Hinvm.
Qed.

Lemma inv_cipher_round_ok (rks : RoundKeys128) (i : nat) (s : State) :
  forallb is_block rks = true -> (i < length rks)%nat -> is_block s = true ->
  exists s', inv_cipher_round rks i s = Ok s' /\ is_block s' = true.
Proof.
  intros Hrks Hi Hs.
  destruct (index_block rks i Hrks Hi) as (rk & Hrk & Hrkb).
  destruct (add_round_key_ok (inv_sub_bytes (inv_shift_rows s)) rk) as (a & Ha & Hab & _);
    [apply inv_sub_bytes_block, inv_shift_rows_block, Hs | exact Hrkb |].
  destruct (inv_mix_columns_ok a Hab) as (s' & Hs' & Hs'b).
  exists s'; split; [|exact Hs'b].
  unfold inv_cipher_round; rewrite Hrk; cbn [bind]; rewrite Ha; exact Hs'.
Qed.

Lemma cipher_rounds_ok (rks : RoundKeys128) (l : list nat) :
  forallb is_block rks = true -> (forall i, In i l -> (i < length rks)%nat) ->
  forall s, is_block s = true ->
  exists s', for_each l (cipher_round rks) s = Ok s' /\ is_block s' = true /\
    for_each (rev l) (inv_cipher_round rks) (shift_rows (sub_bytes s'))
    = Ok (shift_rows (sub_bytes s)).
Proof.
  intros Hrks; induction l as [|i l IH]; intros Hl s Hs.
  - exists s; cbn; auto.
  - destruct (cipher_round_ok rks i s Hrks (Hl i (or_introl eq_refl)) Hs)
      as (s1 & Hs1 & Hs1b & Hinv1).
    destruct (IH (fun j Hj => Hl j (or_intror Hj)) s1 Hs1b) as (s' & Hs' & Hs'b & Hinv).
    exists s'; split; [|split; [exact Hs'b|]].
    + cbn [for_each]; rewrite Hs1; exact Hs'.
    + cbn [rev]; rewrite for_each_app, Hinv; cbn [bind for_each].
      rewrite Hinv1; reflexivity.
Qed.

Lemma inv_cipher_rounds_ok (rks : RoundKeys128) (l : list nat) :
  forallb is_block rks = true -> (forall i, In i l -> (i < length rks)%nat) ->
  forall s, is_block s = true ->
  exists s', for_each l (inv_cipher_round rks) s = Ok s' /\ is_block s' = true.
Proof.
  intros Hrks Hl.
  apply (for_each_invariant (fun s => is_block s = true)).
  intros i s Hi Hs; apply inv_cipher_round_ok; auto.
Qed.

Lemma cipher_inv_cipher_ok (rks : RoundKeys128) (b : list u8) :
  schedule_ok rks -> is_block b = true ->
  exists c, cipher b rks = Ok c /\ is_block c = true /\ inv_cipher c rks = Ok b.
Proof.
  intros (Hlen & Hrks) Hb.
  destruct (index_block rks 0 Hrks) as (k0 & Hk0 & Hk0b); [lia|].
  destruct (index_block rks 10 Hrks) as (k10 & Hk10 & Hk10b); [lia|].
  destruct (add_round_key_ok b k0 Hb Hk0b) as (s0 & Hs0 & Hs0b & Hs0').
  destruct (cipher_rounds_ok rks (seq 1 9) Hrks) with (s := s0)
    as (s9 & Hs9 & Hs9b & Hinv); [intros i Hi; apply in_seq in Hi; lia | exact Hs0b |].
  destruct (add_round_key_ok (shift_rows (sub_bytes s9)) k10) as (c & Hc & Hcb & Hc');
    [apply sub_shift_block, Hs9b | exact Hk10b |].
  exists c; split; [|split; [exact Hcb|]].
  - unfold cipher; rewrite Hlen; change (11 - 1 - 1)%nat with 9%nat; change (11 - 1)%nat with 10%nat.
    rewrite Hk0; cbn [bind]; rewrite Hs0; cbn [bind].
    rewrite Hs9; cbn [bind]; rewrite Hk10; exact Hc.
  - unfold inv_cipher; rewrite Hlen; change (11 - 1 - 1)%nat with 9%nat; change (11 - 1)%nat with 10%nat.
    rewrite Hk10; cbn [bind]; rewrite Hc'; cbn [bind].
    rewrite Hinv; cbn [bind].
    rewrite inv_shift_rows_shift_rows
      by (apply is_block_length, sub_bytes_block, Hs0b).
    rewrite inv_sub_bytes_sub_bytes by exact Hs0b.
    rewrite Hk0; exact Hs0'.
Qed.

Lemma inv_cipher_total (rks : RoundKeys128) (c : list u8) :
  schedule_ok rks -> is_block c = true ->
  exists p, inv_cipher c rks = Ok p /\ is_block p = true.
Proof.
  intros (Hlen & Hrks) Hc.
  destruct (index_block rks 0 Hrks) as (k0 & Hk0 & Hk0b); [lia|].
  destruct (index_block rks 10 Hrks) as (k10 & Hk10 & Hk10b); [lia|].
  destruct (add_round_key_ok c k10 Hc Hk10b) as (s10 & Hs10 & Hs10b & _).
  destruct (inv_cipher_rounds_ok rks (rev (seq 1 9)) Hrks) with (s := s10)
    as (s1 & Hs1 & Hs1b);
    [intros i Hi; apply in_rev, in_seq in Hi; lia | exact Hs10b |].
  destruct (add_round_key_ok (inv_sub_bytes (inv_shift_rows s1)) k0) as (p & Hp & Hpb & _);
    [apply inv_sub_bytes_block, inv_shift_rows_block, Hs1b | exact Hk0b |].
  exists p; split; [|exact Hpb].
  unfold inv_cipher; rewrite Hlen; change (11 - 1 - 1)%nat with 9%nat; change (11 - 1)%nat with 10%nat.
  rewrite Hk10; cbn [bind]; rewrite Hs10; cbn [bind].
  rewrite Hs1; cbn [bind]; rewrite Hk0; exact Hp.
Qed.

(** ** Chunking and [decrypt_ecb] *)

Lemma chunks_fuel_irrel (n : nat) :
  (0 < n)%nat -> forall f1 f2 l, (length l <= f1)%nat -> (length l <= f2)%nat ->
  chunks_fuel f1 n l = chunks_fuel f2 n l.
Proof.
  intros Hn; induction f1 as [|f1 IH]; intros f2 l H1 H2.
  - destruct l; [|cbn in H1; lia]; destruct f2; reflexivity.
  - destruct f2 as [|f2]; [destruct l; [reflexivity | cbn in H2; lia]|].
    destruct l as [|x l]; [reflexivity|].
    cbn [chunks_fuel]; f_equal; apply IH; rewrite length_skipn; cbn [length] in *; lia.
Qed.

Lemma chunks_app_block (b r : list u8) :
  length b = 16%nat -> chunks (b ++ r) 16 = b :: chunks r 16.
Proof.
  intros Hb; unfold chunks; rewrite length_app, Hb.
  change (16 + length r)%nat with (S (15 + length r)).
  destruct b as [|x b']; [discriminate|].
  cbn [app chunks_fuel]; rewrite app_comm_cons.
  rewrite firstn_app, skipn_app, <- Hb, firstn_all, skipn_all, Nat.sub_diag,
    app_nil_r; cbn [firstn skipn app]; f_equal.
  apply chunks_fuel_irrel; lia.
Qed.

Lemma chunks_nil : chunks [] 16 = [].
Proof. reflexivity. Qed.

Lemma chunks_app_blocks (m : nat) :
  forall a c, length a = (16 * m)%nat -> chunks (a ++ c) 16 = chunks a 16 ++ chunks c 16.
Proof.
  induction m as [|m IH]; intros a c Ha.
  - destruct a; [reflexivity | discriminate].
  - rewrite <- (firstn_skipn 16 a), <- app_assoc.
    assert (Hf : length (firstn 16 a) = 16%nat) by (rewrite length_firstn; lia).
    rewrite !chunks_app_block by exact Hf.
    rewrite IH by (rewrite length_skipn; lia).
    rewrite chunks_app_block by exact Hf; reflexivity.
Qed.

Lemma chunks_short (l : list u8) :
  (0 < length l < 16)%nat -> chunks l 16 = [l].
Proof.
  intros H; unfold chunks; destruct l as [|x l]; [cbn in H; lia|].
  cbn [length chunks_fuel]; rewrite firstn_all2, skipn_all2 by (cbn in *; lia).
  destruct (length l); reflexivity.
Qed.

Lemma expand_schedule (k : Key128) :
  is_block k = true -> exists rks, Key128_expand k = Ok rks /\ schedule_ok rks.
Proof.
  intros Hk; destruct (expand_ok k Hk) as (rks & H1 & H2 & H3).
  exists rks; split; [exact H1 | split; assumption].
Qed.

Lemma is_block_of_bytes (l : list u8) :
  length l = 16%nat -> forallb is_byte l = true -> is_block l = true.
Proof.
  intros Hl Hb; unfold is_block; apply andb_true_intro; split;
    [apply Nat.eqb_eq; exact Hl | exact Hb].
Qed.

Lemma decrypt_ecb_chunk_ok (rks : RoundKeys128) (b acc : list u8) :
  schedule_ok rks -> is_block b = true ->
  exists o, decrypt_ecb_chunk rks b acc = Ok (acc ++ o) /\
    inv_cipher b rks = Ok o /\ is_block o = true.
Proof.
  intros Hrks Hb; destruct (inv_cipher_total rks b Hrks Hb) as (o & Ho & Hob).
  exists o; split; [|split; assumption].
  assert (Hl : length b = 16%nat) by exact (is_block_length b Hb).
  unfold decrypt_ecb_chunk, try_into_block; rewrite Hl.
  cbn [Nat.eqb bind]; rewrite Ho; reflexivity.
Qed.

Lemma decrypt_ecb_chunk_short (rks : RoundKeys128) (b acc : list u8) :
  length b <> 16%nat ->
  decrypt_ecb_chunk rks b acc = Panic "input length needs to be a multiple of 16".
Proof.
  intros Hb; unfold decrypt_ecb_chunk, try_into_block.
  apply Nat.eqb_neq in Hb; rewrite Hb; reflexivity.
Qed.

Lemma decrypt_ecb_loop_ok (rks : RoundKeys128) :
  schedule_ok rks ->
  forall m ct acc, length ct = (16 * m)%nat -> forallb is_byte ct = true ->
  exists outs, for_each (chunks ct 16) (decrypt_ecb_chunk rks) acc = Ok (acc ++ concat outs)
    /\ Forall2 (decrypts rks) (chunks ct 16) outs
    /\ length (concat outs) = length ct.
Proof.
  intros Hrks; induction m as [|m IH]; intros ct acc Hlen Hct.
  - destruct ct; [|discriminate].
    exists []; cbn; rewrite app_nil_r; auto.
  - rewrite <- (firstn_skipn 16 ct) in Hct |- *.
    rewrite forallb_app, andb_true_iff in Hct; destruct Hct as (Hb & Hr).
    assert (Hf : length (firstn 16 ct) = 16%nat) by (rewrite length_firstn; lia).
    rewrite chunks_app_block by exact Hf.
    destruct (decrypt_ecb_chunk_ok rks (firstn 16 ct) acc Hrks)
      as (o & Ho & Hinv & Hob); [apply is_block_of_bytes; assumption|].
    destruct (IH (skipn 16 ct) (acc ++ o)) as (outs & Hloop & Hall & Houts);
      [rewrite length_skipn; lia | exact Hr |].
    exists (o :: outs); split; [|split].
    + cbn [for_each]; rewrite Ho; cbn [bind]; rewrite Hloop; cbn [concat].
      rewrite app_assoc; reflexivity.
    + constructor; assumption.
    + assert (Hol : length o = 16%nat) by exact (is_block_length o Hob).
      cbn [concat]; rewrite !length_app, Houts, Hol, Hf; reflexivity.
Qed.

Lemma decrypt_ecb_ok (k ct : list u8) :
  is_block k = true -> forallb is_byte ct = true -> (length ct mod 16 = 0)%nat ->
  exists rks outs, Key128_expand k = Ok rks /\ decrypt_ecb ct k = Ok (concat outs) /\
    Forall2 (decrypts rks) (chunks ct 16) outs /\ length (concat outs) = length ct.
Proof.
  intros Hk Hct Hm.
  destruct (expand_schedule k Hk) as (rks & Hexp & Hrks).
  destruct (decrypt_ecb_loop_ok rks Hrks (length ct / 16) ct [])
    as (outs & Hloop & Hall & Hlen); [apply Nat.Div0.div_exact in Hm; exact Hm | exact Hct |].
  exists rks, outs; split; [exact Hexp | split; [|split; assumption]].
  unfold decrypt_ecb; rewrite Hexp; cbn [bind]; exact Hloop.
Qed.

Lemma decrypt_ecb_panic (k ct : list u8) :
  is_block k = true -> forallb is_byte ct = true -> (length ct mod 16 <> 0)%nat ->
  decrypt_ecb ct k = Panic "input length needs to be a multiple of 16".
Proof.
  intros Hk Hct Hm.
  destruct (expand_schedule k Hk) as (rks & Hexp & Hrks).
  unfold decrypt_ecb; rewrite Hexp; cbn [bind].
  set (n := (16 * (length ct / 16))%nat).
  assert (Hn : (n <= length ct)%nat) by (apply Nat.Div0.mul_div_le).
  rewrite <- (firstn_skipn n ct) in Hct |- *.
  rewrite forallb_app, andb_true_iff in Hct; destruct Hct as (Hb & _).
  assert (Hr : length (skipn n ct) = (length ct mod 16)%nat).
  { rewrite length_skipn; unfold n; rewrite (Nat.div_mod_eq (length ct) 16) at 1; lia. }
  rewrite chunks_app_blocks with (m := (length ct / 16)%nat)
    by (rewrite length_firstn; lia).
  rewrite (chunks_short (skipn n ct))
    by (rewrite Hr; split; [lia | apply Nat.mod_upper_bound; discriminate]).
  destruct (decrypt_ecb_loop_ok rks Hrks (length ct / 16) (firstn n ct) [])
    as (outs & Hloop & _); [rewrite length_firstn; lia | exact Hb |].
  rewrite for_each_app, Hloop; cbn [bind for_each].
  rewrite decrypt_ecb_chunk_short; [reflexivity|].
  rewrite Hr; pose proof (Nat.mod_upper_bound (length ct) 16); lia.
Qed.

Lemma decrypts_functional (rks : RoundKeys128) :
  forall l o1 o2, Forall2 (decrypts rks) l o1 -> Forall2 (decrypts rks) l o2 -> o1 = o2.
Proof.
  intros l o1 o2 H1; revert o2; induction H1 as [|ch a l o1 Ha H1 IH]; intros o2 H2;
    inversion H2 as [|ch' b l' o2' Hb H2']; subst; [reflexivity|].
  unfold decrypts in Ha, Hb; rewrite Ha in Hb; injection Hb as ->.
  f_equal; apply IH, H2'.
Qed.

Lemma chunks_middle (pre blk post : list u8) :
  (length pre mod 16 = 0)%nat -> length blk = 16%nat ->
  chunks (pre ++ blk ++ post) 16 = chunks pre 16 ++ blk :: chunks post 16.
Proof.
  intros Hpre Hblk.
  rewrite chunks_app_blocks with (m := (length pre / 16)%nat)
    by (apply Nat.Div0.div_exact, Hpre).
  rewrite chunks_app_block by exact Hblk; reflexivity.
Qed.

Lemma decrypt_ecb_local (k pre blk blk' post : list u8) :
  is_block k = true -> forallb is_byte pre = true -> is_block blk = true ->
  is_block blk' = true -> forallb is_byte post = true ->
  (length pre mod 16 = 0)%nat -> (length post mod 16 = 0)%nat ->
  exists opre ob ob' opost,
    decrypt_ecb (pre ++ blk ++ post) k = Ok (opre ++ ob ++ opost) /\
    decrypt_ecb (pre ++ blk' ++ post) k = Ok (opre ++ ob' ++ opost) /\
    length opre = length pre /\ length ob = 16%nat /\ length ob' = 16%nat.
Proof.
  intros Hk Hpre Hb Hb' Hpost Hmpre Hmpost.
  assert (Hl : length blk = 16%nat) by exact (is_block_length blk Hb).
  assert (Hl' : length blk' = 16%nat) by exact (is_block_length blk' Hb').
  assert (Hlen : forall b, length b = 16%nat ->
            (length (pre ++ b ++ post) mod 16 = 0)%nat).
  { intros b Hbl; rewrite !length_app, Hbl.
    rewrite (Nat.div_mod_eq (length pre) 16), (Nat.div_mod_eq (length post) 16),
      Hmpre, Hmpost.
    replace (16 * (length pre / 16) + 0 + (16 + (16 * (length post / 16) + 0)))%nat
      with ((length pre / 16 + 1 + length post / 16) * 16)%nat by lia.
    apply Nat.Div0.mod_mul. }
  assert (Hbytes : forall b, is_block b = true ->
            forallb is_byte (pre ++ b ++ post) = true).
  { intros b Hbb; rewrite !forallb_app; apply andb_true_intro; split; [exact Hpre|].
    apply andb_true_intro; split; [exact (is_block_bytes b Hbb) | exact Hpost]. }
  destruct (decrypt_ecb_ok k (pre ++ blk ++ post) Hk (Hbytes blk Hb) (Hlen blk Hl))
    as (rks & outs1 & Hexp & Hdec1 & Hall1 & _).
  destruct (decrypt_ecb_ok k (pre ++ blk' ++ post) Hk (Hbytes blk' Hb') (Hlen blk' Hl'))
    as (rks2 & outs2 & Hexp2 & Hdec2 & Hall2 & _).
  rewrite Hexp in Hexp2; injection Hexp2 as <-.
  destruct (expand_schedule k Hk) as (rks' & Hexp' & Hrks).
  rewrite Hexp in Hexp'; injection Hexp' as <-.
  rewrite chunks_middle in Hall1, Hall2 by assumption.
  apply Forall2_app_inv_l in Hall1 as (op1 & r1 & Hp1 & Hr1 & ->).
  apply Forall2_app_inv_l in Hall2 as (op2 & r2 & Hp2 & Hr2 & ->).
  inversion Hr1 as [|? ob1 ? opost1 Hob1 Hpost1]; subst.
  inversion Hr2 as [|? ob2 ? opost2 Hob2 Hpost2]; subst.
  destruct (decrypt_ecb_loop_ok rks Hrks (length pre / 16) pre [])
    as (op & _ & Hp & Hplen); [apply Nat.Div0.div_exact, Hmpre | exact Hpre |].
  pose proof (decrypts_functional rks _ _ _ Hp1 Hp) as ->.
  pose proof (decrypts_functional rks _ _ _ Hp2 Hp) as ->.
  pose proof (decrypts_functional rks _ _ _ Hpost2 Hpost1) as ->.
  destruct (inv_cipher_total rks blk Hrks Hb) as (p & Hp' & Hpb).
  destruct (inv_cipher_total rks blk' Hrks Hb') as (p' & Hp'' & Hpb').
  unfold decrypts in Hob1, Hob2.
  rewrite Hp' in Hob1; injection Hob1 as <-.
  rewrite Hp'' in Hob2; injection Hob2 as <-.
  exists (concat op), p, p', (concat opost1).
  rewrite !concat_app in Hdec1, Hdec2; cbn [concat] in Hdec1, Hdec2.
  split; [exact Hdec1 | split; [exact Hdec2 | split; [exact Hplen | split]]];
    [exact (is_block_length p Hpb) | exact (is_block_length p' Hpb')].
Qed.

(** ** Lemmas on the round functions, the key schedule and the driver *)

(** Splits [H : length l = 16] into the sixteen elements of [l]. *)
Ltac destruct16 l H :=
  do 16 (let x := fresh "x" in destruct l as [|x l]; [discriminate H|]);
  destruct l; [clear H | discriminate H].

Lemma sbox_encrypt_decrypt (x : Z) :
  0 <= x < 256 -> sbox_lookup SBOX_ENCRYPT (sbox_lookup SBOX_DECRYPT x) = x.
Proof.
  intros Hx; pose proof (all_bytes_spec _ sbox_inverse_all x Hx) as H.
  rewrite !andb_true_iff, !Z.eqb_eq in H; tauto.
Qed.

Lemma nth_list_upd_eq {A} (l : list A) (i : nat) (v d : A) :
  (i < length l)%nat -> nth i (list_upd l i v) d = v.
Proof.
  revert i; induction l as [|x l IH]; intros [|i] Hi; cbn in *; try lia; auto with arith.
Qed.

Lemma nth_list_upd_ne {A} (l : list A) (i j : nat) (v d : A) :
  j <> i -> nth j (list_upd l i v) d = nth j l d.
Proof.
  revert i j; induction l as [|x l IH]; intros [|i] [|j] Hij; cbn; auto; try lia.
Qed.

Lemma expand_step_rel (i : nat) (rounds : list RoundKey) (prev : RoundKey) :
  (1 <= i <= 10)%nat -> expand_inv (rounds, prev) -> nth (i - 1) rounds [] = prev ->
  exists new, expand_step i (rounds, prev) = Ok (list_upd rounds i new, new) /\
    is_block new = true /\ key_step_rel prev (round_constant (i - 1)) new.
Proof.
  intros Hi (Hlen & Hall & Hprev) Hnth; cbn [fst snd] in *.
  destruct (round_constant_ok (i - 1)) as ([r0 r1 r2 r3] & Hrc & Hr0 & Hr1 & Hr2 & Hr3);
    [lia|]; cbn [w0 w1 w2 w3] in *.
  assert (Hr : nth_error rounds (i - 1) = Some prev).
  { rewrite <- Hnth; apply nth_error_nth'; lia. }
  unfold round_constant; rewrite (nth_error_nth _ _ _ Hrc).
  unfold expand_step, index, set_index.
  rewrite Hrc, Hr, Hlen, (proj2 (Nat.ltb_lt i 11)) by lia.
  destruct_block prev Hprev.
  cbn -[sbox_lookup Z.lxor is_block list_upd]; unfold gf.add.
  eexists; split; [reflexivity|]; split; [prove_block|].
  unfold key_step_rel; split; [|split; [|split]]; reflexivity.
Qed.

Lemma expand_loop_rel (k : Key128) (Hk : is_block k = true) :
  forall n, (n <= 10)%nat ->
  exists st, for_each (seq 1 n) expand_step (list_upd (repeat (repeat 0 16) 11) 0 k, k)
             = Ok st /\ expand_rel k n st.
Proof.
  induction n as [|n IH]; intros Hn.
  - eexists; split; [reflexivity|].
    unfold expand_rel, expand_inv; cbn [fst snd list_upd repeat length forallb nth].
    rewrite Hk; refine (conj (conj eq_refl (conj eq_refl eq_refl)) (conj eq_refl (conj eq_refl _))).
    intros i Hi; lia.
  - destruct IH as ([rounds prev] & Hloop & Hinv & Hnth & H0 & Hrel); [lia|].
    cbn [fst snd] in *.
    destruct (expand_step_rel (S n) rounds prev) as (new & Hstep & Hnew & Hnewrel);
      [lia | exact Hinv | replace (S n - 1)%nat with n by lia; exact Hnth |].
    destruct Hinv as (Hlen & Hall & Hprev); cbn [fst snd] in Hlen, Hall, Hprev.
    exists (list_upd rounds (S n) new, new); split.
    + rewrite seq_S, for_each_app, Hloop; cbn [bind for_each].
      replace (1 + n)%nat with (S n) by lia; rewrite Hstep; reflexivity.
    + unfold expand_rel, expand_inv; cbn [fst snd].
      split; [split; [rewrite length_list_upd; exact Hlen|split; [apply forallb_list_upd; assumption | exact Hnew]]|].
      split; [apply nth_list_upd_eq; lia|].
      split; [rewrite nth_list_upd_ne by lia; exact H0|].
      intros i Hi.
      destruct (Nat.eq_dec i (S n)) as [->|Hne].
      * rewrite nth_list_upd_ne by lia; rewrite nth_list_upd_eq by lia.
        replace (S n - 1)%nat with n in * by lia; rewrite Hnth; exact Hnewrel.
      * rewrite !nth_list_upd_ne by lia; apply Hrel; lia.
Qed.

Lemma add_round_key_xor_aux (s rk : list u8) :
  length s = 16%nat -> length rk = 16%nat ->
  add_round_key s rk = Ok (map (fun '(a, b) => Z.lxor a b) (combine s rk)).
Proof. intros Hs Hrk; destruct16 s Hs; destruct16 rk Hrk; reflexivity. Qed.

Lemma bind_assoc {A B C} (m : result A) (f : A -> result B) (g : B -> result C) :
  bind (bind m f) g = bind m (fun x => bind (f x) g).
Proof. destruct m; reflexivity. Qed.

Lemma decrypt_ecb_chunk_acc (rks : RoundKeys128) (chunk acc : list u8) :
  decrypt_ecb_chunk rks chunk acc
  = (o <- decrypt_ecb_chunk rks chunk [] ;; Ok (acc ++ o)).
Proof.
  unfold decrypt_ecb_chunk; destruct (try_into_block chunk); cbn [bind]; [|reflexivity].
  destruct (inv_cipher l rks); reflexivity.
Qed.

Lemma decrypt_ecb_loop_acc (rks : RoundKeys128) (l : list (list u8)) :
  forall acc, for_each l (decrypt_ecb_chunk rks) acc
  = (o <- for_each l (decrypt_ecb_chunk rks) [] ;; Ok (acc ++ o)).
Proof.
  induction l as [|ch l IH]; intros acc; cbn [for_each].
  - cbn; rewrite app_nil_r; reflexivity.
  - rewrite (decrypt_ecb_chunk_acc rks ch acc), !bind_assoc.
    destruct (decrypt_ecb_chunk rks ch []) as [o|m]; cbn [bind]; [|reflexivity].
    rewrite (IH (acc ++ o)), (IH o), !bind_assoc.
    destruct (for_each l (decrypt_ecb_chunk rks) []); cbn; [rewrite app_assoc|]; reflexivity.
Qed.

Lemma mult_xtime_all :
  all_bytes (fun x => (gf.mult 0x02 x =? xtime x) && (gf.mult 0x03 x =? Z.lxor (xtime x) x))
  = true.
Proof. vm_compute. reflexivity. Qed.

Lemma xtime_xor_all :
  all_bytes (fun x => all_bytes (fun y => xtime (Z.lxor x y) =? Z.lxor (xtime x) (xtime y)))
  = true.
Proof. vm_compute. reflexivity. Qed.

Lemma mult_xor_mds (k x y : Z) :
  In k [0x02; 0x03] -> 0 <= x < 256 -> 0 <= y < 256 ->
  gf.mult k (Z.lxor x y) = Z.lxor (gf.mult k x) (gf.mult k y).
Proof.
  intros Hk Hx Hy.
  assert (Hxy : 0 <= Z.lxor x y < 256) by (apply xor_byte; assumption).
  pose proof (all_bytes_spec _ mult_xtime_all x Hx) as Ex.
  pose proof (all_bytes_spec _ mult_xtime_all y Hy) as Ey.
  pose proof (all_bytes_spec _ mult_xtime_all _ Hxy) as Exy.
  pose proof (all_bytes2_spec _ xtime_xor_all x y Hx Hy) as Ex2.
  rewrite !andb_true_iff, !Z.eqb_eq in Ex, Ey, Exy; rewrite Z.eqb_eq in Ex2.
  destruct Hk as [<- | [<- | []]].
  - rewrite (proj1 Exy), (proj1 Ex), (proj1 Ey); exact Ex2.
  - rewrite (proj2 Exy), (proj2 Ex), (proj2 Ey), Ex2; aac_reflexivity.
Qed.
(** The product of the MDS matrix with the inverse MDS matrix, entry by
    entry: coefficient [(r, j)] applied to a byte [x] is [x] on the diagonal
    and [0] elsewhere. *)
Lemma mix_inv_mix_terms_all :
  all_bytes (fun x =>
    (Z.lxor (Z.lxor (Z.lxor (gf.mult 0x02 (gf.mult 0x0e x)) (gf.mult 0x03 (gf.mult 0x09 x))) (gf.mult 0x0d x)) (gf.mult 0x0b x) =? x) &&
    (Z.lxor (Z.lxor (Z.lxor (gf.mult 0x02 (gf.mult 0x0b x)) (gf.mult 0x03 (gf.mult 0x0e x))) (gf.mult 0x09 x)) (gf.mult 0x0d x) =? 0) &&
    (Z.lxor (Z.lxor (Z.lxor (gf.mult 0x02 (gf.mult 0x0d x)) (gf.mult 0x03 (gf.mult 0x0b x))) (gf.mult 0x0e x)) (gf.mult 0x09 x) =? 0) &&
    (Z.lxor (Z.lxor (Z.lxor (gf.mult 0x02 (gf.mult 0x09 x)) (gf.mult 0x03 (gf.mult 0x0d x))) (gf.mult 0x0b x)) (gf.mult 0x0e x) =? 0) &&
    (Z.lxor (Z.lxor (Z.lxor (gf.mult 0x0e x) (gf.mult 0x02 (gf.mult 0x09 x))) (gf.mult 0x03 (gf.mult 0x0d x))) (gf.mult 0x0b x) =? 0) &&
    (Z.lxor (Z.lxor (Z.lxor (gf.mult 0x0b x) (gf.mult 0x02 (gf.mult 0x0e x))) (gf.mult 0x03 (gf.mult 0x09 x))) (gf.mult 0x0d x) =? x) &&
    (Z.lxor (Z.lxor (Z.lxor (gf.mult 0x0d x) (gf.mult 0x02 (gf.mult 0x0b x))) (gf.mult 0x03 (gf.mult 0x0e x))) (gf.mult 0x09 x) =? 0) &&
    (Z.lxor (Z.lxor (Z.lxor (gf.mult 0x09 x) (gf.mult 0x02 (gf.mult 0x0d x))) (gf.mult 0x03 (gf.mult 0x0b x))) (gf.mult 0x0e x) =? 0) &&
    (Z.lxor (Z.lxor (Z.lxor (gf.mult 0x0e x) (gf.mult 0x09 x)) (gf.mult 0x02 (gf.mult 0x0d x))) (gf.mult 0x03 (gf.mult 0x0b x)) =? 0) &&
    (Z.lxor (Z.lxor (Z.lxor (gf.mult 0x0b x) (gf.mult 0x0e x)) (gf.mult 0x02 (gf.mult 0x09 x))) (gf.mult 0x03 (gf.mult 0x0d x)) =? 0) &&
    (Z.lxor (Z.lxor (Z.lxor (gf.mult 0x0d x) (gf.mult 0x0b x)) (gf.mult 0x02 (gf.mult 0x0e x))) (gf.mult 0x03 (gf.mult 0x09 x)) =? x) &&
    (Z.lxor (Z.lxor (Z.lxor (gf.mult 0x09 x) (gf.mult 0x0d x)) (gf.mult 0x02 (gf.mult 0x0b x))) (gf.mult 0x03 (gf.mult 0x0e x)) =? 0) &&
    (Z.lxor (Z.lxor (Z.lxor (gf.mult 0x03 (gf.mult 0x0e x)) (gf.mult 0x09 x)) (gf.mult 0x0d x)) (gf.mult 0x02 (gf.mult 0x0b x)) =? 0) &&
    (Z.lxor (Z.lxor (Z.lxor (gf.mult 0x03 (gf.mult 0x0b x)) (gf.mult 0x0e x)) (gf.mult 0x09 x)) (gf.mult 0x02 (gf.mult 0x0d x)) =? 0) &&
    (Z.lxor (Z.lxor (Z.lxor (gf.mult 0x03 (gf.mult 0x0d x)) (gf.mult 0x0b x)) (gf.mult 0x0e x)) (gf.mult 0x02 (gf.mult 0x09 x)) =? 0) &&
    (Z.lxor (Z.lxor (Z.lxor (gf.mult 0x03 (gf.mult 0x09 x)) (gf.mult 0x0d x)) (gf.mult 0x0b x)) (gf.mult 0x02 (gf.mult 0x0e x)) =? x)) = true.
Proof. vm_compute. reflexivity. Qed.

Lemma mix_inv_mix_terms (x : Z) :
  0 <= x < 256 ->
  (Z.lxor (Z.lxor (Z.lxor (gf.mult 0x02 (gf.mult 0x0e x)) (gf.mult 0x03 (gf.mult 0x09 x))) (gf.mult 0x0d x)) (gf.mult 0x0b x) = x) /\
  (Z.lxor (Z.lxor (Z.lxor (gf.mult 0x02 (gf.mult 0x0b x)) (gf.mult 0x03 (gf.mult 0x0e x))) (gf.mult 0x09 x)) (gf.mult 0x0d x) = 0) /\
  (Z.lxor (Z.lxor (Z.lxor (gf.mult 0x02 (gf.mult 0x0d x)) (gf.mult 0x03 (gf.mult 0x0b x))) (gf.mult 0x0e x)) (gf.mult 0x09 x) = 0) /\
  (Z.lxor (Z.lxor (Z.lxor (gf.mult 0x02 (gf.mult 0x09 x)) (gf.mult 0x03 (gf.mult 0x0d x))) (gf.mult 0x0b x)) (gf.mult 0x0e x) = 0) /\
  (Z.lxor (Z.lxor (Z.lxor (gf.mult 0x0e x) (gf.mult 0x02 (gf.mult 0x09 x))) (gf.mult 0x03 (gf.mult 0x0d x))) (gf.mult 0x0b x) = 0) /\
  (Z.lxor (Z.lxor (Z.lxor (gf.mult 0x0b x) (gf.mult 0x02 (gf.mult 0x0e x))) (gf.mult 0x03 (gf.mult 0x09 x))) (gf.mult 0x0d x) = x) /\
  (Z.lxor (Z.lxor (Z.lxor (gf.mult 0x0d x) (gf.mult 0x02 (gf.mult 0x0b x))) (gf.mult 0x03 (gf.mult 0x0e x))) (gf.mult 0x09 x) = 0) /\
  (Z.lxor (Z.lxor (Z.lxor (gf.mult 0x09 x) (gf.mult 0x02 (gf.mult 0x0d x))) (gf.mult 0x03 (gf.mult 0x0b x))) (gf.mult 0x0e x) = 0) /\
  (Z.lxor (Z.lxor (Z.lxor (gf.mult 0x0e x) (gf.mult 0x09 x)) (gf.mult 0x02 (gf.mult 0x0d x))) (gf.mult 0x03 (gf.mult 0x0b x)) = 0) /\
  (Z.lxor (Z.lxor (Z.lxor (gf.mult 0x0b x) (gf.mult 0x0e x)) (gf.mult 0x02 (gf.mult 0x09 x))) (gf.mult 0x03 (gf.mult 0x0d x)) = 0) /\
  (Z.lxor (Z.lxor (Z.lxor (gf.mult 0x0d x) (gf.mult 0x0b x)) (gf.mult 0x02 (gf.mult 0x0e x))) (gf.mult 0x03 (gf.mult 0x09 x)) = x) /\
  (Z.lxor (Z.lxor (Z.lxor (gf.mult 0x09 x) (gf.mult 0x0d x)) (gf.mult 0x02 (gf.mult 0x0b x))) (gf.mult 0x03 (gf.mult 0x0e x)) = 0) /\
  (Z.lxor (Z.lxor (Z.lxor (gf.mult 0x03 (gf.mult 0x0e x)) (gf.mult 0x09 x)) (gf.mult 0x0d x)) (gf.mult 0x02 (gf.mult 0x0b x)) = 0) /\
  (Z.lxor (Z.lxor (Z.lxor (gf.mult 0x03 (gf.mult 0x0b x)) (gf.mult 0x0e x)) (gf.mult 0x09 x)) (gf.mult 0x02 (gf.mult 0x0d x)) = 0) /\
  (Z.lxor (Z.lxor (Z.lxor (gf.mult 0x03 (gf.mult 0x0d x)) (gf.mult 0x0b x)) (gf.mult 0x0e x)) (gf.mult 0x02 (gf.mult 0x09 x)) = 0) /\
  (Z.lxor (Z.lxor (Z.lxor (gf.mult 0x03 (gf.mult 0x09 x)) (gf.mult 0x0d x)) (gf.mult 0x0b x)) (gf.mult 0x02 (gf.mult 0x0e x)) = x).
Proof.
  intros Hx; pose proof (all_bytes_spec _ mix_inv_mix_terms_all x Hx) as H.
  rewrite !andb_true_iff, !Z.eqb_eq in H; tauto.
Qed.

Section MixInvMix.

Local Opaque gf.mult.

Lemma mix_inv_mix_column (c : u8x4) :
  0 <= w0 c < 256 -> 0 <= w1 c < 256 -> 0 <= w2 c < 256 -> 0 <= w3 c < 256 ->
  mix (inv_mix c) = c.
Proof.
  destruct c as [a0 a1 a2 a3]; cbn [w0 w1 w2 w3]; intros H0 H1 H2 H3.
  unfold inv_mix, mix; cbn [w0 w1 w2 w3].
  repeat rewrite mult_xor_mds by first [cbn; tauto | bytes].
  destruct (mix_inv_mix_terms a0 H0)
    as (P00 & P01 & P02 & P03 & P10 & P11 & P12 & P13 & P20 & P21 & P22 & P23 & P30 & P31 & P32 & P33).
  destruct (mix_inv_mix_terms a1 H1)
    as (Q00 & Q01 & Q02 & Q03 & Q10 & Q11 & Q12 & Q13 & Q20 & Q21 & Q22 & Q23 & Q30 & Q31 & Q32 & Q33).
  destruct (mix_inv_mix_terms a2 H2)
    as (R00 & R01 & R02 & R03 & R10 & R11 & R12 & R13 & R20 & R21 & R22 & R23 & R30 & R31 & R32 & R33).
  destruct (mix_inv_mix_terms a3 H3)
    as (S00 & S01 & S02 & S03 & S10 & S11 & S12 & S13 & S20 & S21 & S22 & S23 & S30 & S31 & S32 & S33).
  f_equal.
  - aac_rewrite P00; aac_rewrite Q01; aac_rewrite R02; aac_rewrite S03;
    aac_reflexivity.
  - aac_rewrite P10; aac_rewrite Q11; aac_rewrite R12; aac_rewrite S13;
    aac_reflexivity.
  - aac_rewrite P20; aac_rewrite Q21; aac_rewrite R22; aac_rewrite S23;
    aac_reflexivity.
  - aac_rewrite P30; aac_rewrite Q31; aac_rewrite R32; aac_rewrite S33;
    aac_reflexivity.
Qed.

End MixInvMix.

Lemma inv_mix_columns_mix_ok (s : State) :
  is_block s = true ->
  exists s', inv_mix_columns s = Ok s' /\ is_block s' = true /\
             mix_columns s' = Ok s.
Proof.
  intros Hs; destruct_block s Hs.
  rewrite inv_mix_columns_map, map_columns_block.
  eexists; split; [reflexivity|]; split.
  - prove_block.
  - rewrite mix_columns_map, map_columns_block, !W_eta.
    rewrite !mix_inv_mix_column by bytes; reflexivity.
Qed.

Lemma shift_rows_inv_shift_rows_aux (s : State) :
  length s = 16%nat -> shift_rows (inv_shift_rows s) = s.
Proof.
  intros Hlen.
  do 16 (let x := fresh "x" in destruct s as [|x s]; [discriminate Hlen|]).
  destruct s; [reflexivity | discriminate Hlen].
Qed.

Lemma sub_bytes_inv_sub_bytes_aux (s : State) :
  forallb is_byte s = true -> sub_bytes (inv_sub_bytes s) = s.
Proof.
  intros H; unfold sub_bytes, inv_sub_bytes, apply_sbox; rewrite map_map.
  rewrite forallb_forall in H.
  rewrite map_ext_in with (g := fun x => x); [apply map_id|].
  intros x Hx; apply H, is_byte_spec in Hx.
  pose proof (all_bytes_spec _ sbox_inverse_all x Hx) as E.
  rewrite !andb_true_iff, !Z.eqb_eq in E; tauto.
Qed.

Lemma inv_shift_sub_block (s : State) :
  is_block s = true -> is_block (inv_sub_bytes (inv_shift_rows s)) = true.
Proof. intros H; apply inv_sub_bytes_block, inv_shift_rows_block, H. Qed.

Lemma shift_sub_inv (s : State) :
  is_block s = true -> shift_rows (sub_bytes (inv_sub_bytes (inv_shift_rows s))) = s.
Proof.
  intros H.
  rewrite sub_bytes_inv_sub_bytes_aux
    by (apply is_block_bytes, inv_shift_rows_block, H).
  apply shift_rows_inv_shift_rows_aux, is_block_length, H.
Qed.

Lemma inv_cipher_rounds_inverse (rks : RoundKeys128) (l : list nat) :
  forallb is_block rks = true -> (forall i, In i l -> (i < length rks)%nat) ->
  forall s, is_block s = true ->
  exists s', for_each (rev l) (inv_cipher_round rks) s = Ok s' /\ is_block s' = true /\
    for_each l (cipher_round rks) (inv_sub_bytes (inv_shift_rows s'))
    = Ok (inv_sub_bytes (inv_shift_rows s)).
Proof.
  intros Hrks; induction l as [|i l IH]; intros Hl s Hs.
  - exists s; cbn; auto.
  - destruct (IH (fun j Hj => Hl j (or_intror Hj)) s Hs) as (s1 & Hs1 & Hs1b & Hc1).
    destruct (index_block rks i Hrks (Hl i (or_introl eq_refl))) as (rk & Hrk & Hrkb).
    destruct (add_round_key_ok (inv_sub_bytes (inv_shift_rows s1)) rk) as (a & Ha & Hab & Ha');
      [apply inv_shift_sub_block, Hs1b | exact Hrkb |].
    destruct (inv_mix_columns_mix_ok a Hab) as (s' & Hs' & Hs'b & Hmix).
    exists s'; split; [|split; [exact Hs'b|]].
    + cbn [rev]; rewrite for_each_app, Hs1; cbn [bind for_each].
      unfold inv_cipher_round; rewrite Hrk; cbn [bind]; rewrite Ha; cbn [bind].
      rewrite Hs'; reflexivity.
    + cbn [for_each]; unfold cipher_round.
      rewrite shift_sub_inv by exact Hs'b.
      rewrite Hmix; cbn [bind]; rewrite Hrk; cbn [bind]; rewrite Ha'; cbn [bind].
      exact Hc1.
Qed.

Lemma cipher_inv_cipher_inverse (rks : RoundKeys128) (c : list u8) :
  schedule_ok rks -> is_block c = true ->
  exists p, inv_cipher c rks = Ok p /\ is_block p = true /\ cipher p rks = Ok c.
Proof.
  intros (Hlen & Hrks) Hc.
  destruct (index_block rks 0 Hrks) as (k0 & Hk0 & Hk0b); [lia|].
  destruct (index_block rks 10 Hrks) as (k10 & Hk10 & Hk10b); [lia|].
  destruct (add_round_key_ok c k10 Hc Hk10b) as (t10 & Ht10 & Ht10b & Ht10').
  destruct (inv_cipher_rounds_inverse rks (seq 1 9) Hrks) with (s := t10)
    as (t1 & Ht1 & Ht1b & Hloop); [intros i Hi; apply in_seq in Hi; lia | exact Ht10b |].
  destruct (add_round_key_ok (inv_sub_bytes (inv_shift_rows t1)) k0) as (p & Hp & Hpb & Hp');
    [apply inv_shift_sub_block, Ht1b | exact Hk0b |].
  exists p; split; [|split; [exact Hpb|]].
  - unfold inv_cipher; rewrite Hlen; change (11 - 1 - 1)%nat with 9%nat;
      change (11 - 1)%nat with 10%nat.
    rewrite Hk10; cbn [bind]; rewrite Ht10; cbn [bind].
    rewrite Ht1; cbn [bind]; rewrite Hk0; exact Hp.
  - unfold cipher; rewrite Hlen; change (11 - 1 - 1)%nat with 9%nat;
      change (11 - 1)%nat with 10%nat.
    rewrite Hk0; cbn [bind]; rewrite Hp'; cbn [bind].
    rewrite Hloop; cbn [bind].
    rewrite shift_sub_inv by exact Ht10b.
    rewrite Hk10; exact Ht10'.
Qed.

Lemma mult_algebra_all :
  all_bytes (fun a => all_bytes (fun b => gf.mult a b =? gf.mult b a)
                      && (gf.mult a 1 =? a) && (gf.mult a 0 =? 0)) = true.
Proof. vm_compute. reflexivity. Qed.

(** * Properties of the specification *)

(** C1: for every 16-byte block [b] and 16-byte key [k], the expansion of
    [k] succeeds, [cipher] encrypts [b] without panicking, and [inv_cipher]
    under the same schedule gives [b] back. *)
Theorem inv_cipher_cipher (b k : list u8)
  (Hb : is_block b = true) (Hk : is_block k = true) :
  exists round_keys c, Key128_expand k = Ok round_keys /\
    cipher b round_keys = Ok c /\ inv_cipher c round_keys = Ok b.
Proof.
  destruct (expand_schedule k Hk) as (rks & Hexp & Hrks).
  destruct (cipher_inv_cipher_ok rks b Hrks Hb) as (c & Hc & _ & Hinv).
  exists rks, c; auto.
Qed.

Lemma inv_cipher_cipher_witness :
  is_block fips_plaintext = true /\ is_block fips_key = true /\
  exists round_keys c, Key128_expand fips_key = Ok round_keys /\
    cipher fips_plaintext round_keys = Ok c /\ inv_cipher c round_keys = Ok fips_plaintext.
Proof.
  split; [reflexivity | split; [reflexivity |]].
  apply (inv_cipher_cipher fips_plaintext fips_key); reflexivity.
Defined.

(** C2 (counterexample): under the schedule of key
    [2b7e151628aed2a6abf7158809cf4f3c], [cipher] does not encrypt
    [3243f6a8885a308d313198a2e0370734] to the specification's
    [3925851d02dc09fbdc118597196a0b32]. *)
Lemma cipher_fips_spec_ciphertext_counterexample :
  (round_keys <- Key128_expand fips_key ;; cipher fips_plaintext round_keys)
  <> Ok spec_ciphertext.
Proof. vm_compute; discriminate. Qed.

(** C2 (amended): under the schedule of key
    [2b7e151628aed2a6abf7158809cf4f3c], [cipher] encrypts
    [3243f6a8885a308d313198a2e0370734] to
    [3925841d02dc09fbdc118597196a0b32], the answer of FIPS-197
    Appendix B. *)
Theorem cipher_fips_known_answer :
  (round_keys <- Key128_expand fips_key ;; cipher fips_plaintext round_keys)
  = Ok fips_ciphertext.
Proof. vm_compute; reflexivity. Qed.

(** C3: [Key128::expand] of key [2b7e151628aed2a6abf7158809cf4f3c] gives a
    schedule whose round key 1 is [a0fafe1788542cb123a339392a6c7605] and
    whose round key 10 is [d014f9a8c9ee2589e13f0cc8b6630ca6]. *)
Theorem expand_fips_known_answer :
  exists round_keys, Key128_expand fips_key = Ok round_keys /\
    nth_error round_keys 1 = Some fips_round_key_1 /\
    nth_error round_keys 10 = Some fips_round_key_10.
Proof.
  exists (ok_or_nil (Key128_expand fips_key)).
  split; [|split]; vm_compute; reflexivity.
Qed.

(** C4: for all bytes [a] and [b], [gf::mult a b] is the product of [a] and
    [b] as polynomials over GF(2) reduced modulo x^8+x^4+x^3+x+1; in
    particular [mult 0 0 = 0], [mult 1 0 = 0] and [mult 0x53 0xCA = 0x01]. *)
Theorem gf_mult_rijndael (a b : Z) (Ha : 0 <= a < 256) (Hb : 0 <= b < 256) :
  gf.mult a b = rijndael_mult a b /\
  gf.mult 0 0 = 0 /\ gf.mult 1 0 = 0 /\ gf.mult 0x53 0xCA = 0x01.
Proof.
  split; [|split; [|split]]; [|reflexivity..].
  apply Z.eqb_eq.
  exact (all_bytes_spec _ (all_bytes_spec _ mult_rijndael_all a Ha) b Hb).
Qed.

Lemma gf_mult_rijndael_witness :
  (0 <= 0x57 < 256 /\ 0 <= 0x83 < 256) /\
  (gf.mult 0x57 0x83 = rijndael_mult 0x57 0x83 /\
   gf.mult 0 0 = 0 /\ gf.mult 1 0 = 0 /\ gf.mult 0x53 0xCA = 0x01).
Proof.
  split; [lia|].
  apply (gf_mult_rijndael 0x57 0x83); lia.
Defined.

(** C5: both S-box tables have 256 entries, and for every byte [x],
    [SBOX_ENCRYPT[SBOX_DECRYPT[x]] = x] and
    [SBOX_DECRYPT[SBOX_ENCRYPT[x]] = x]. *)
Theorem sbox_mutually_inverse (x : Z) (Hx : 0 <= x < 256) :
  length SBOX_ENCRYPT = 256%nat /\ length SBOX_DECRYPT = 256%nat /\
  sbox_lookup SBOX_ENCRYPT (sbox_lookup SBOX_DECRYPT x) = x /\
  sbox_lookup SBOX_DECRYPT (sbox_lookup SBOX_ENCRYPT x) = x.
Proof.
  pose proof (all_bytes_spec _ sbox_inverse_all x Hx) as H.
  rewrite !andb_true_iff, !Z.eqb_eq in H.
  split; [reflexivity | split; [reflexivity | tauto]].
Qed.

Lemma sbox_mutually_inverse_witness :
  0 <= 0x53 < 256 /\
  (length SBOX_ENCRYPT = 256%nat /\ length SBOX_DECRYPT = 256%nat /\
   sbox_lookup SBOX_ENCRYPT (sbox_lookup SBOX_DECRYPT 0x53) = 0x53 /\
   sbox_lookup SBOX_DECRYPT (sbox_lookup SBOX_ENCRYPT 0x53) = 0x53).
Proof. split; [lia | apply (sbox_mutually_inverse 0x53); lia]. Defined.

(** C6: for every column [c] of four bytes, [Column::inv_mix (Column::mix c)
    = c]; hence for every 16-byte state [s], [mix_columns s] succeeds and
    [inv_mix_columns] of its result is [s]. *)
Theorem inv_mix_mix (c : u8x4) (s : State)
  (Hc : forallb is_byte (word_to_list c) = true) (Hs : is_block s = true) :
  inv_mix (mix c) = c /\
  exists s', mix_columns s = Ok s' /\ inv_mix_columns s' = Ok s.
Proof.
  split.
  - destruct c as [a0 a1 a2 a3]; cbn [word_to_list forallb w0 w1 w2 w3] in Hc.
    rewrite !andb_true_iff, !is_byte_spec in Hc.
    apply inv_mix_mix_column; cbn [w0 w1 w2 w3]; tauto.
  - destruct (mix_columns_ok s Hs) as (s' & Hs' & _ & Hinv); eauto.
Qed.

Lemma inv_mix_mix_witness :
  forallb is_byte (word_to_list (W 0xdb 0x13 0x53 0x45)) = true /\
  is_block fips_plaintext = true /\
  (inv_mix (mix (W 0xdb 0x13 0x53 0x45)) = W 0xdb 0x13 0x53 0x45 /\
   exists s', mix_columns fips_plaintext = Ok s' /\
     inv_mix_columns s' = Ok fips_plaintext).
Proof.
  split; [reflexivity | split; [reflexivity |]].
  apply (inv_mix_mix (W 0xdb 0x13 0x53 0x45) fips_plaintext); reflexivity.
Defined.

(** C7: for every 16-byte key [k] and every byte string [ct] whose length is
    a multiple of 16, [decrypt_ecb ct k] is the concatenation, in order, of
    [inv_cipher] under [expand k] of the consecutive 16-byte chunks of [ct],
    and has the length of [ct]; and replacing one block of a ciphertext
    changes only the 16 output bytes at the same position. *)
Theorem decrypt_ecb_blockwise (k : Key128) (Hk : is_block k = true) :
  (forall ct, forallb is_byte ct = true -> (length ct mod 16 = 0)%nat ->
   exists round_keys outs, Key128_expand k = Ok round_keys /\
     decrypt_ecb ct k = Ok (concat outs) /\
     Forall2 (fun chunk out => inv_cipher chunk round_keys = Ok out)
             (chunks ct 16) outs /\
     length (concat outs) = length ct) /\
  (forall pre blk blk' post,
     forallb is_byte pre = true -> is_block blk = true ->
     is_block blk' = true -> forallb is_byte post = true ->
     (length pre mod 16 = 0)%nat -> (length post mod 16 = 0)%nat ->
     exists opre ob ob' opost,
       decrypt_ecb (pre ++ blk ++ post) k = Ok (opre ++ ob ++ opost) /\
       decrypt_ecb (pre ++ blk' ++ post) k = Ok (opre ++ ob' ++ opost) /\
       length opre = length pre /\ length ob = 16%nat /\ length ob' = 16%nat).
Proof.
  split.
  - intros ct Hct Hlen; exact (decrypt_ecb_ok k ct Hk Hct Hlen).
  - intros pre blk blk' post; apply decrypt_ecb_local, Hk.
Qed.

Lemma decrypt_ecb_blockwise_witness :
  is_block fips_key = true /\
  ((forall ct, forallb is_byte ct = true -> (length ct mod 16 = 0)%nat ->
    exists round_keys outs, Key128_expand fips_key = Ok round_keys /\
      decrypt_ecb ct fips_key = Ok (concat outs) /\
      Forall2 (fun chunk out => inv_cipher chunk round_keys = Ok out)
              (chunks ct 16) outs /\
      length (concat outs) = length ct) /\
   (forall pre blk blk' post,
      forallb is_byte pre = true -> is_block blk = true ->
      is_block blk' = true -> forallb is_byte post = true ->
      (length pre mod 16 = 0)%nat -> (length post mod 16 = 0)%nat ->
      exists opre ob ob' opost,
        decrypt_ecb (pre ++ blk ++ post) fips_key = Ok (opre ++ ob ++ opost) /\
        decrypt_ecb (pre ++ blk' ++ post) fips_key = Ok (opre ++ ob' ++ opost) /\
        length opre = length pre /\ length ob = 16%nat /\ length ob' = 16%nat)).
Proof.
  split; [reflexivity |].
  apply (decrypt_ecb_blockwise fips_key); reflexivity.
Defined.

(** C8: for every 16-byte key and every byte string whose length is not a
    multiple of 16, [decrypt_ecb] panics with "input length needs to be a
    multiple of 16" and returns no output. *)
Theorem decrypt_ecb_bad_length (k ct : list u8)
  (Hk : is_block k = true) (Hct : forallb is_byte ct = true)
  (Hlen : (length ct mod 16 <> 0)%nat) :
  decrypt_ecb ct k = Panic "input length needs to be a multiple of 16".
Proof. exact (decrypt_ecb_panic k ct Hk Hct Hlen). Qed.

Lemma decrypt_ecb_bad_length_witness :
  is_block fips_key = true /\ forallb is_byte (fips_ciphertext ++ [0%Z]) = true /\
  (length (fips_ciphertext ++ [0%Z]) mod 16 <> 0)%nat /\
  decrypt_ecb (fips_ciphertext ++ [0%Z]) fips_key
  = Panic "input length needs to be a multiple of 16".
Proof.
  split; [reflexivity | split; [reflexivity | split; [vm_compute; discriminate |]]].
  apply decrypt_ecb_bad_length; [reflexivity | reflexivity | vm_compute; discriminate].
Defined.

(** C9: for every 16-byte block [b] and 16-byte key [k], [Key128::expand k],
    [cipher b] and [inv_cipher b] run to completion without reaching any
    panic (column-index assertions, slice conversions, out-of-range
    indexing), and so does [decrypt_ecb ct k] for every byte string [ct]
    whose length is a multiple of 16. *)
Theorem aes_panic_free (b k : list u8)
  (Hb : is_block b = true) (Hk : is_block k = true) :
  exists round_keys, Key128_expand k = Ok round_keys /\
    (exists c, cipher b round_keys = Ok c) /\
    (exists p, inv_cipher b round_keys = Ok p) /\
    (forall ct, forallb is_byte ct = true -> (length ct mod 16 = 0)%nat ->
       exists out, decrypt_ecb ct k = Ok out).
Proof.
  destruct (expand_schedule k Hk) as (rks & Hexp & Hrks).
  exists rks; split; [exact Hexp | split; [|split]].
  - destruct (cipher_inv_cipher_ok rks b Hrks Hb) as (c & Hc & _); eauto.
  - destruct (inv_cipher_total rks b Hrks Hb) as (p & Hp & _); eauto.
  - intros ct Hct Hlen.
    destruct (decrypt_ecb_ok k ct Hk Hct Hlen) as (? & outs & _ & Hdec & _); eauto.
Qed.

Lemma aes_panic_free_witness :
  is_block fips_ciphertext = true /\ is_block fips_key = true /\
  exists round_keys, Key128_expand fips_key = Ok round_keys /\
    (exists c, cipher fips_ciphertext round_keys = Ok c) /\
    (exists p, inv_cipher fips_ciphertext round_keys = Ok p) /\
    (forall ct, forallb is_byte ct = true -> (length ct mod 16 = 0)%nat ->
       exists out, decrypt_ecb ct fips_key = Ok out).
Proof.
  split; [reflexivity | split; [reflexivity |]].
  apply (aes_panic_free fips_ciphertext fips_key); reflexivity.
Defined.

(** C10 (counterexample): there is no 16-byte key for which the key
    schedules of the inline module [key] of src/src/aes.rs and of
    src/src/aes/key.rs differ. *)
Lemma key_schedules_differ_counterexample :
  ~ exists k, is_block k = true /\ key.Key128_expand k <> key_file.Key128_expand k.
Proof. intros (k & _ & H); apply H; reflexivity. Qed.

(** C10 (amended): the two copies of the key schedule, the inline module
    [key] of src/src/aes.rs and src/src/aes/key.rs, compute the same
    round-key schedule for every key. *)
Theorem key_schedules_agree (k : list u8) :
  key.Key128_expand k = key_file.Key128_expand k.
Proof. reflexivity. Qed.

(** * Further properties of the code *)

(** X1: [Key128::column] on a 16-byte key returns the bytes [4i .. 4i+3]
    for [i <= 3]; [i = 4] passes the assertion [index <= count] and panics
    in the first [unwrap]; every larger index fails the assertion. *)
Theorem Key128_column_range (k : Key128) (Hk : length k = 16%nat) :
  (forall i, (i <= 3)%nat ->
     Key128_column k i = Ok (W (nth (4 * i) k 0) (nth (4 * i + 1) k 0)
                               (nth (4 * i + 2) k 0) (nth (4 * i + 3) k 0))) /\
  Key128_column k 4 = Panic "called `Option::unwrap()` on a `None` value" /\
  (forall i, (4 < i)%nat -> Key128_column k i = Panic "index out of range").
Proof.
  destruct16 k Hk; split; [|split].
  - intros i Hi; destruct i as [|[|[|[|i]]]]; [reflexivity.. | lia].
  - reflexivity.
  - intros i Hi; unfold Key128_column.
    replace (i <=? 4)%nat with false by (symmetry; apply Nat.leb_gt; lia); reflexivity.
Qed.

Lemma Key128_column_range_witness :
  length fips_key = 16%nat /\
  ((forall i, (i <= 3)%nat ->
     Key128_column fips_key i = Ok (W (nth (4 * i) fips_key 0) (nth (4 * i + 1) fips_key 0)
                               (nth (4 * i + 2) fips_key 0) (nth (4 * i + 3) fips_key 0))) /\
  Key128_column fips_key 4 = Panic "called `Option::unwrap()` on a `None` value" /\
  (forall i, (4 < i)%nat -> Key128_column fips_key i = Panic "index out of range")).
Proof. split; [reflexivity | apply Key128_column_range; reflexivity]. Defined.

(** X2: on a 16-byte round key and a column index [i <= 3],
    [RoundKey::set_column] succeeds, keeps the length, [RoundKey::column i]
    then reads back the column written, and the other columns are
    unchanged. *)
Theorem RoundKey_set_column_column (rk : RoundKey) (i : nat) (col : u8x4)
  (Hrk : length rk = 16%nat) (Hi : (i <= 3)%nat) :
  exists rk', RoundKey_set_column rk i col = Ok rk' /\ length rk' = 16%nat /\
    RoundKey_column rk' i = Ok col /\
    (forall j, (j <= 3)%nat -> j <> i -> RoundKey_column rk' j = RoundKey_column rk j).
Proof.
  destruct16 rk Hrk; destruct col as [c0 c1 c2 c3].
  destruct i as [|[|[|[|i]]]]; [..| lia]; eexists; (split; [reflexivity|]);
    (split; [reflexivity | split; [reflexivity|]]);
    intros j Hj Hji; (destruct j as [|[|[|[|j]]]]; [..| lia]);
    first [reflexivity | congruence].
Qed.

Lemma RoundKey_set_column_column_witness :
  length fips_key = 16%nat /\ (2 <= 3)%nat /\
  exists rk', RoundKey_set_column fips_key 2 (W 1 2 3 4) = Ok rk' /\
    length rk' = 16%nat /\ RoundKey_column rk' 2 = Ok (W 1 2 3 4) /\
    (forall j, (j <= 3)%nat -> j <> 2%nat ->
       RoundKey_column rk' j = RoundKey_column fips_key j).
Proof.
  split; [reflexivity | split; [lia|]].
  apply RoundKey_set_column_column; [reflexivity | lia].
Defined.

(** X3: on a 16-byte state and a column index [i <= 3], [State::set_column]
    succeeds, keeps the length, [State::column i] then reads back the
    column written, and the other columns are unchanged. *)
Theorem set_column_column (s : State) (i : nat) (c : Column)
  (Hs : length s = 16%nat) (Hi : (i <= 3)%nat) :
  exists s', set_column s i c = Ok s' /\ length s' = 16%nat /\
    column s' i = Ok c /\
    (forall j, (j <= 3)%nat -> j <> i -> column s' j = column s j).
Proof.
  destruct16 s Hs; destruct c as [c0 c1 c2 c3].
  destruct i as [|[|[|[|i]]]]; [..| lia]; eexists; (split; [reflexivity|]);
    (split; [reflexivity | split; [reflexivity|]]);
    intros j Hj Hji; (destruct j as [|[|[|[|j]]]]; [..| lia]);
    first [reflexivity | congruence].
Qed.

Lemma set_column_column_witness :
  length fips_plaintext = 16%nat /\ (0 <= 3)%nat /\
  exists s', set_column fips_plaintext 0 (W 1 2 3 4) = Ok s' /\
    length s' = 16%nat /\ column s' 0 = Ok (W 1 2 3 4) /\
    (forall j, (j <= 3)%nat -> j <> 0%nat -> column s' j = column fips_plaintext j).
Proof.
  split; [reflexivity | split; [lia|]].
  apply set_column_column; [reflexivity | lia].
Defined.

(** X4: on a 16-byte state, [State::shift_rows] rotates row [r] left by
    [r] positions: the byte at (row, column) of the result is the byte at
    (row, (column + row) mod 4) of the input. *)
Theorem shift_rows_index (s : State) (Hs : length s = 16%nat) :
  forall row col, (row < 4)%nat -> (col < 4)%nat ->
  State_index (shift_rows s) row col = State_index s row ((col + row) mod 4).
Proof.
  destruct16 s Hs; intros row col Hr Hc.
  destruct row as [|[|[|[|row]]]]; [| | | | lia];
    (destruct col as [|[|[|[|col]]]]; [| | | | lia]); reflexivity.
Qed.

Lemma shift_rows_index_witness :
  length fips_plaintext = 16%nat /\ (1 < 4)%nat /\ (3 < 4)%nat /\
  State_index (shift_rows fips_plaintext) 1 3
  = State_index fips_plaintext 1 ((3 + 1) mod 4).
Proof.
  split; [reflexivity | split; [lia | split; [lia|]]].
  apply shift_rows_index; [reflexivity | lia | lia].
Defined.

(** X5: on a 16-byte state, [State::inv_shift_rows] rotates row [r] right
    by [r] positions: the byte at (row, column) of the result is the byte at
    (row, (column + 4 - row) mod 4) of the input. *)
Theorem inv_shift_rows_index (s : State) (Hs : length s = 16%nat) :
  forall row col, (row < 4)%nat -> (col < 4)%nat ->
  State_index (inv_shift_rows s) row col = State_index s row ((col + 4 - row) mod 4).
Proof.
  destruct16 s Hs; intros row col Hr Hc.
  destruct row as [|[|[|[|row]]]]; [| | | | lia];
    (destruct col as [|[|[|[|col]]]]; [| | | | lia]); reflexivity.
Qed.

Lemma inv_shift_rows_index_witness :
  length fips_plaintext = 16%nat /\ (3 < 4)%nat /\ (1 < 4)%nat /\
  State_index (inv_shift_rows fips_plaintext) 3 1
  = State_index fips_plaintext 3 ((1 + 4 - 3) mod 4).
Proof.
  split; [reflexivity | split; [lia | split; [lia|]]].
  apply inv_shift_rows_index; [reflexivity | lia | lia].
Defined.

(** X6: on a 16-byte state, [State::shift_rows] and
    [State::inv_shift_rows] undo each other, in both orders. *)
Theorem shift_rows_inv_shift_rows (s : State) (Hs : length s = 16%nat) :
  shift_rows (inv_shift_rows s) = s /\ inv_shift_rows (shift_rows s) = s.
Proof. destruct16 s Hs; split; reflexivity. Qed.

Lemma shift_rows_inv_shift_rows_witness :
  length fips_plaintext = 16%nat /\
  shift_rows (inv_shift_rows fips_plaintext) = fips_plaintext /\
  inv_shift_rows (shift_rows fips_plaintext) = fips_plaintext.
Proof. split; [reflexivity | apply shift_rows_inv_shift_rows; reflexivity]. Defined.

(** X7: on a state of bytes (of any length), [State::sub_bytes] and
    [State::inv_sub_bytes] undo each other, in both orders. *)
Theorem sub_bytes_inv_sub_bytes (s : State) (Hs : forallb is_byte s = true) :
  sub_bytes (inv_sub_bytes s) = s /\ inv_sub_bytes (sub_bytes s) = s.
Proof.
  unfold sub_bytes, inv_sub_bytes, apply_sbox; rewrite !map_map.
  rewrite forallb_forall in Hs.
  split; (rewrite map_ext_in with (g := fun x => x); [apply map_id|]);
    intros x Hx; apply Hs, is_byte_spec in Hx;
    first [apply sbox_encrypt_decrypt, Hx | apply sbox_decrypt_encrypt, Hx].
Qed.

Lemma sub_bytes_inv_sub_bytes_witness :
  forallb is_byte fips_plaintext = true /\
  sub_bytes (inv_sub_bytes fips_plaintext) = fips_plaintext /\
  inv_sub_bytes (sub_bytes fips_plaintext) = fips_plaintext.
Proof. split; [reflexivity | apply sub_bytes_inv_sub_bytes; reflexivity]. Defined.

(** X8: on a 16-byte state, [State::shift_rows] commutes with
    [State::sub_bytes], and [State::inv_shift_rows] with
    [State::inv_sub_bytes]. *)
Theorem sub_bytes_shift_rows (s : State) (Hs : length s = 16%nat) :
  shift_rows (sub_bytes s) = sub_bytes (shift_rows s) /\
  inv_shift_rows (inv_sub_bytes s) = inv_sub_bytes (inv_shift_rows s).
Proof. destruct16 s Hs; split; reflexivity. Qed.

Lemma sub_bytes_shift_rows_witness :
  length fips_plaintext = 16%nat /\
  shift_rows (sub_bytes fips_plaintext) = sub_bytes (shift_rows fips_plaintext) /\
  inv_shift_rows (inv_sub_bytes fips_plaintext)
  = inv_sub_bytes (inv_shift_rows fips_plaintext).
Proof. split; [reflexivity | apply sub_bytes_shift_rows; reflexivity]. Defined.

(** X9: on a 16-byte state, [State::mix_columns] and
    [State::inv_mix_columns] succeed, keep the length, and replace each
    column [i] of the state by [Column::mix] (resp. [Column::inv_mix]) of
    it. *)
Theorem mix_columns_by_column (s : State) (Hs : length s = 16%nat) :
  (exists s', mix_columns s = Ok s' /\ length s' = 16%nat /\
     forall i, (i <= 3)%nat -> exists c, column s i = Ok c /\ column s' i = Ok (mix c)) /\
  (exists s', inv_mix_columns s = Ok s' /\ length s' = 16%nat /\
     forall i, (i <= 3)%nat -> exists c, column s i = Ok c /\ column s' i = Ok (inv_mix c)).
Proof.
  destruct16 s Hs; rewrite mix_columns_map, inv_mix_columns_map, !map_columns_block.
  split; (eexists; split; [reflexivity | split; [reflexivity|]]);
    intros i Hi; (destruct i as [|[|[|[|i]]]]; [| | | | lia]);
    (eexists; split; reflexivity).
Qed.

Lemma mix_columns_by_column_witness :
  length fips_plaintext = 16%nat /\
  ((exists s', mix_columns fips_plaintext = Ok s' /\ length s' = 16%nat /\
     forall i, (i <= 3)%nat ->
       exists c, column fips_plaintext i = Ok c /\ column s' i = Ok (mix c)) /\
   (exists s', inv_mix_columns fips_plaintext = Ok s' /\ length s' = 16%nat /\
     forall i, (i <= 3)%nat ->
       exists c, column fips_plaintext i = Ok c /\ column s' i = Ok (inv_mix c))).
Proof. split; [reflexivity | apply mix_columns_by_column; reflexivity]. Defined.

(** X10: [Column::mix] undoes [Column::inv_mix] on every column of bytes,
    and on a 16-byte block of bytes [State::mix_columns] undoes
    [State::inv_mix_columns]. *)
Theorem mix_inv_mix_columns (c : Column) (s : State)
  (Hc : forallb is_byte (word_to_list c) = true) (Hs : is_block s = true) :
  mix (inv_mix c) = c /\
  exists s', inv_mix_columns s = Ok s' /\ is_block s' = true /\ mix_columns s' = Ok s.
Proof.
  split; [|apply inv_mix_columns_mix_ok, Hs].
  destruct c as [a0 a1 a2 a3]; cbn [word_to_list forallb w0 w1 w2 w3] in Hc.
  rewrite !andb_true_iff in Hc; destruct Hc as (H0 & H1 & H2 & H3 & _).
  apply is_byte_spec in H0, H1, H2, H3.
  apply mix_inv_mix_column; assumption.
Qed.

Lemma mix_inv_mix_columns_witness :
  forallb is_byte (word_to_list (W 0xdb 0x13 0x53 0x45)) = true /\
  is_block fips_plaintext = true /\
  (mix (inv_mix (W 0xdb 0x13 0x53 0x45)) = W 0xdb 0x13 0x53 0x45 /\
   exists s', inv_mix_columns fips_plaintext = Ok s' /\ is_block s' = true /\
              mix_columns s' = Ok fips_plaintext).
Proof.
  split; [reflexivity | split; [reflexivity|]].
  apply mix_inv_mix_columns; reflexivity.
Defined.

(** X11: for a 16-byte state and a 16-byte round key,
    [State::add_round_key] succeeds with the bytewise xor of the two, and
    applying it twice with the same round key gives the state back. *)
Theorem add_round_key_xor (s rk : list u8)
  (Hs : length s = 16%nat) (Hrk : length rk = 16%nat) :
  add_round_key s rk = Ok (map (fun '(a, b) => Z.lxor a b) (combine s rk)) /\
  (s' <- add_round_key s rk ;; add_round_key s' rk) = Ok s.
Proof.
  split; [apply add_round_key_xor_aux; assumption|].
  rewrite add_round_key_xor_aux by assumption; cbn [bind].
  rewrite add_round_key_xor_aux
    by (rewrite ?length_map, ?length_combine; lia).
  destruct16 s Hs; destruct16 rk Hrk; cbn [combine map].
  rewrite !Z.lxor_assoc, !Z.lxor_nilpotent, !Z.lxor_0_r; reflexivity.
Qed.

Lemma add_round_key_xor_witness :
  length fips_plaintext = 16%nat /\ length fips_key = 16%nat /\
  add_round_key fips_plaintext fips_key
  = Ok (map (fun '(a, b) => Z.lxor a b) (combine fips_plaintext fips_key)) /\
  (s' <- add_round_key fips_plaintext fips_key ;; add_round_key s' fips_key)
  = Ok fips_plaintext.
Proof.
  split; [reflexivity | split; [reflexivity|]].
  apply add_round_key_xor; reflexivity.
Defined.

(** X12: on bytes, [gf::mult] returns a byte, is commutative, has [1] as
    neutral element and [0] as absorbing element. *)
Theorem gf_mult_algebra (a b : Z) (Ha : 0 <= a < 256) (Hb : 0 <= b < 256) :
  0 <= gf.mult a b < 256 /\ gf.mult a b = gf.mult b a /\
  gf.mult a 1 = a /\ gf.mult 1 a = a /\ gf.mult a 0 = 0 /\ gf.mult 0 a = 0.
Proof.
  pose proof (all_bytes_spec _ mult_algebra_all a Ha) as H.
  pose proof (all_bytes_spec _ mult_algebra_all 1 ltac:(lia)) as H1.
  rewrite !andb_true_iff, !Z.eqb_eq in H, H1.
  destruct H as ((Hc & H1a) & H0a).
  pose proof (all_bytes_spec _ Hc b Hb) as Hab; rewrite Z.eqb_eq in Hab.
  pose proof (all_bytes_spec _ (proj1 (proj1 H1)) a Ha) as H1a'; rewrite Z.eqb_eq in H1a'.
  split; [apply mult_byte; assumption|].
  split; [exact Hab | split; [exact H1a | split; [rewrite H1a'; exact H1a|]]].
  split; [exact H0a|].
  unfold gf.mult; destruct a; reflexivity.
Qed.

Lemma gf_mult_algebra_witness :
  0 <= 0x57 < 256 /\ 0 <= 0x83 < 256 /\
  (0 <= gf.mult 0x57 0x83 < 256 /\ gf.mult 0x57 0x83 = gf.mult 0x83 0x57 /\
   gf.mult 0x57 1 = 0x57 /\ gf.mult 1 0x57 = 0x57 /\
   gf.mult 0x57 0 = 0 /\ gf.mult 0 0x57 = 0).
Proof. split; [lia | split; [lia|]]. apply gf_mult_algebra; lia. Defined.

(** X13: for a 16-byte key of bytes, [Key128::expand] returns eleven round
    keys, the first one is the key itself, and each later round key [i] is
    computed from round key [i - 1] and [ROUND_CONSTANTS[i - 1]] by the four
    column equations of the loop body ([key_step_rel]). *)
Theorem expand_key_schedule (k : Key128) (Hk : is_block k = true) :
  exists round_keys, Key128_expand k = Ok round_keys /\ length round_keys = 11%nat /\
    nth 0 round_keys [] = k /\
    forall i, (1 <= i <= 10)%nat ->
      key_step_rel (nth (i - 1) round_keys []) (round_constant (i - 1)) (nth i round_keys []).
Proof.
  destruct (expand_loop_rel k Hk 10) as (st & Hloop & (Hlen & _ & _) & _ & H0 & Hrel); [lia|].
  exists (fst st); unfold Key128_expand; rewrite Hloop; cbn [bind].
  split; [reflexivity | split; [exact Hlen | split; [exact H0 | exact Hrel]]].
Qed.

Lemma expand_key_schedule_witness :
  is_block fips_key = true /\
  exists round_keys, Key128_expand fips_key = Ok round_keys /\
    length round_keys = 11%nat /\ nth 0 round_keys [] = fips_key /\
    forall i, (1 <= i <= 10)%nat ->
      key_step_rel (nth (i - 1) round_keys []) (round_constant (i - 1))
                   (nth i round_keys []).
Proof. split; [reflexivity | apply expand_key_schedule; reflexivity]. Defined.

(** X14: under any eleven 16-byte round keys of bytes (not only those of
    [Key128::expand]), [cipher] and [inv_cipher] are inverse permutations of
    the 16-byte blocks of bytes: each succeeds on every such block, and
    each undoes the other. *)
Theorem cipher_permutation (rks : RoundKeys128) (b : list u8)
  (Hlen : length rks = 11%nat) (Hrks : forallb is_block rks = true)
  (Hb : is_block b = true) :
  (exists c, cipher b rks = Ok c /\ inv_cipher c rks = Ok b) /\
  (exists p, inv_cipher b rks = Ok p /\ cipher p rks = Ok b).
Proof.
  assert (Hs : schedule_ok rks) by (split; assumption).
  split.
  - destruct (cipher_inv_cipher_ok rks b Hs Hb) as (c & Hc & _ & Hinv).
    exists c; split; assumption.
  - destruct (cipher_inv_cipher_inverse rks b Hs Hb) as (p & Hp & _ & Hc).
    exists p; split; assumption.
Qed.

Lemma cipher_permutation_witness :
  length (ok_or_nil (Key128_expand fips_key)) = 11%nat /\
  forallb is_block (ok_or_nil (Key128_expand fips_key)) = true /\
  is_block fips_ciphertext = true /\
  ((exists c, cipher fips_ciphertext (ok_or_nil (Key128_expand fips_key)) = Ok c /\
      inv_cipher c (ok_or_nil (Key128_expand fips_key)) = Ok fips_ciphertext) /\
   (exists p, inv_cipher fips_ciphertext (ok_or_nil (Key128_expand fips_key)) = Ok p /\
      cipher p (ok_or_nil (Key128_expand fips_key)) = Ok fips_ciphertext)).
Proof.
  split; [vm_compute; reflexivity | split; [vm_compute; reflexivity | split; [reflexivity|]]].
  apply cipher_permutation; vm_compute; reflexivity.
Defined.

(** X15: [decrypt_ecb] of the empty input under a 16-byte key of bytes
    succeeds with the empty output. *)
Theorem decrypt_ecb_empty (k : Key128) (Hk : is_block k = true) :
  decrypt_ecb [] k = Ok [].
Proof.
  destruct (expand_ok k Hk) as (rks & Hexp & _).
  unfold decrypt_ecb; rewrite Hexp; reflexivity.
Qed.

Lemma decrypt_ecb_empty_witness :
  is_block fips_key = true /\ decrypt_ecb [] fips_key = Ok [].
Proof. split; [reflexivity | apply decrypt_ecb_empty; reflexivity]. Defined.

(** X16: when the length of [a] is a multiple of 16, [decrypt_ecb] of
    [a ++ b] is the concatenation of [decrypt_ecb a] and [decrypt_ecb b]
    (for any [b] and any key), and it panics exactly when one of them
    does, with the first panic. *)
Theorem decrypt_ecb_app (k a b : list u8) (Ha : (length a mod 16 = 0)%nat) :
  decrypt_ecb (a ++ b) k
  = (oa <- decrypt_ecb a k ;; ob <- decrypt_ecb b k ;; Ok (oa ++ ob)).
Proof.
  unfold decrypt_ecb; destruct (Key128_expand k) as [rks|m]; cbn [bind]; [|reflexivity].
  rewrite chunks_app_blocks with (m := (length a / 16)%nat)
    by (apply Nat.Div0.div_exact, Ha).
  rewrite for_each_app.
  destruct (for_each (chunks a 16) (decrypt_ecb_chunk rks) []) as [oa|m]; cbn [bind];
    [apply decrypt_ecb_loop_acc | reflexivity].
Qed.

Lemma decrypt_ecb_app_witness :
  (length fips_ciphertext mod 16 = 0)%nat /\
  decrypt_ecb (fips_ciphertext ++ fips_plaintext) fips_key
  = (oa <- decrypt_ecb fips_ciphertext fips_key ;;
     ob <- decrypt_ecb fips_plaintext fips_key ;; Ok (oa ++ ob)).
Proof. split; [reflexivity | apply decrypt_ecb_app; reflexivity]. Defined.
